(** * gert, src/utils.c: resolving a reference-like string to a commit

    [resolve_refish] and [ref_to_commit] are glue between the R runtime and
    libgit2.  Every step that touches the repository is a libgit2 call, so the
    embedding keeps those calls as the nodes of a program tree ([prog]) and
    gives them meaning only through a handler.  Theorems quantify over every
    handler; a small repository model ([Spec]) provides one concrete handler
    on which the programs can be run. *)

From Stdlib Require Import String Ascii List ZArith Bool Lia.
Import ListNotations.
Open Scope list_scope.
Open Scope string_scope.

Set Implicit Arguments.

(** ** R values as far as utils.c inspects them *)

(** An R vector seen through [Rf_isString], [Rf_length], [STRING_ELT] and
    [CHAR]: the elements of a character vector are kept as the C strings that
    [CHAR] yields, and of a generic vector only the length is kept. *)
Inductive SEXP : Type :=
| NILSXP
| LGLSXP (v : list bool)
| INTSXP (v : list Z)
| STRSXP (v : list string)
| VECSXP (len : nat).

Definition Rf_isString (x : SEXP) : bool :=
  match x with STRSXP _ => true | _ => false end.

Definition Rf_length (x : SEXP) : nat :=
  match x with
  | NILSXP => 0
  | LGLSXP v => length v
  | INTSXP v => length v
  | STRSXP v => length v
  | VECSXP len => len
  end.

(** [CHAR(STRING_ELT(x, 0))]; the caller has checked that [x] is a character
    vector with at least one element. *)
Definition STRING_ELT0 (x : SEXP) : string :=
  match x with STRSXP (s :: _) => s | _ => "" end.

(** ** libgit2 values *)

Definition git_oid := string.

Inductive git_object_t : Type :=
| GIT_OBJECT_COMMIT
| GIT_OBJECT_TREE
| GIT_OBJECT_BLOB
| GIT_OBJECT_TAG.

Definition git_object_t_eqb (a b : git_object_t) : bool :=
  match a, b with
  | GIT_OBJECT_COMMIT, GIT_OBJECT_COMMIT => true
  | GIT_OBJECT_TREE, GIT_OBJECT_TREE => true
  | GIT_OBJECT_BLOB, GIT_OBJECT_BLOB => true
  | GIT_OBJECT_TAG, GIT_OBJECT_TAG => true
  | _, _ => false
  end.

Definition git_object_type2string (t : git_object_t) : string :=
  match t with
  | GIT_OBJECT_COMMIT => "commit"
  | GIT_OBJECT_TREE => "tree"
  | GIT_OBJECT_BLOB => "blob"
  | GIT_OBJECT_TAG => "tag"
  end.

Record git_commit : Type := mk_commit {
  git_commit_id : git_oid;
  git_commit_tree_id : git_oid;
  git_commit_parents : list git_oid
}.

Inductive git_object : Type :=
| ObjCommit (c : git_commit)
| ObjTree (id : git_oid)
| ObjBlob (id : git_oid)
| ObjTag (id : git_oid) (target : git_oid).

Definition git_object_type (o : git_object) : git_object_t :=
  match o with
  | ObjCommit _ => GIT_OBJECT_COMMIT
  | ObjTree _ => GIT_OBJECT_TREE
  | ObjBlob _ => GIT_OBJECT_BLOB
  | ObjTag _ _ => GIT_OBJECT_TAG
  end.

Definition git_object_id (o : git_object) : git_oid :=
  match o with
  | ObjCommit c => git_commit_id c
  | ObjTree id => id
  | ObjBlob id => id
  | ObjTag id _ => id
  end.

Inductive ref_target : Type :=
| Direct (id : git_oid)
| Symbolic (name : string).

Record git_reference : Type := mk_reference {
  git_reference_name : string;
  git_reference_target : ref_target
}.

Record git_error : Type := mk_git_error {
  message : string;
  klass : Z
}.

(** What a libgit2 call hands back: [GIT_OK] together with the value written
    through the out pointer, or one of libgit2's error codes, all of which are
    negative; [GitErr n] stands for the code [- n]. *)
Inductive git_result (A : Type) : Type :=
| GitOk (a : A)
| GitErr (n : positive).
Arguments GitOk {A} a.
Arguments GitErr {A} n.

Definition GIT_OK : Z := 0.

Definition git_code {A} (r : git_result A) : Z :=
  match r with GitOk _ => GIT_OK | GitErr n => Z.neg n end.

(** The out pointer after the call; it keeps its initial [NULL] on error. *)
Definition git_out {A} (r : git_result A) : option A :=
  match r with GitOk a => Some a | GitErr _ => None end.

(** ** Programs over the external calls *)

(** How an [Rf_eval] of R code comes back: it returns, or the R code raised a
    condition and control left the C function. *)
Inductive eval_result : Type := Returned | Jumped.

(** The external calls of [bail_if], [resolve_refish] and [ref_to_commit]; the
    repository argument is the handler's state. *)
Inductive call : Type -> Type :=
| git_reference_dwim (str : string) : call (git_result git_reference)
| git_reference_peel (ref : git_reference) (target : git_object_t)
    : call (git_result git_object)
| git_reference_free (ref : git_reference) : call unit
| git_revparse_single (str : string) : call (git_result git_object)
| git_object_peel (obj : git_object) (target : git_object_t)
    : call (git_result git_object)
| git_object_free (obj : git_object) : call unit
| git_commit_lookup (id : git_oid) : call (git_result git_commit)
| giterr_last : call (option git_error)
| raise_libgit2_error (code : Z) (msg wheregit : string) (kclass : option Z)
    : call eval_result.

(** The ways control leaves a C function other than by [return]: [Rf_error]
    with its formatted message, the condition signalled by the R function
    [raise_libgit2_error], and the read of [info->message] in [bail_if] when
    [giterr_last] returned [NULL]. *)
Inductive r_error : Type :=
| Rf_error (msg : string)
| gert_error (code : Z) (msg wheregit : string) (kclass : option Z)
| null_dereference.

Inductive prog (A : Type) : Type :=
| Ret (a : A)
| Raise (e : r_error)
| Call (X : Type) (c : call X) (k : X -> prog A).
Arguments Ret {A} a.
Arguments Raise {A} e.
Arguments Call {A X} c k.

Fixpoint bind {A B} (p : prog A) (f : A -> prog B) : prog B :=
  match p with
  | Ret a => f a
  | Raise e => Raise e
  | Call c k => Call c (fun x => bind (k x) f)
  end.

Notation "x <- p ;; q" := (bind p (fun x => q))
  (at level 61, p at next level, right associativity).
Notation "p ;; q" := (bind p (fun _ => q))
  (at level 61, right associativity).

Definition perform {X} (c : call X) : prog X := Call c Ret.

(** ** utils.c *)

Definition bail_if (err : Z) (what : string) : prog unit :=
  if (err =? 0)%Z then Ret tt
  else
    info <- perform giterr_last ;;
    let code := err in
    let kclass := option_map klass info in
    let msg := match info with
               | Some i => message i
               | None => "Unknown error message"
               end in
    let wheregit := what in
    r <- perform (raise_libgit2_error code msg wheregit kclass) ;;
    match r with
    | Jumped => Raise (gert_error code msg wheregit kclass)
    | Returned =>
        match info with
        | Some i =>
            Raise (Rf_error ("Failed to raise gert S3 error (" ++ message i ++ ")"))
        | None => Raise null_dereference
        end
    end.

(** Lines 46 to 59 of [resolve_refish]: both the failed name lookup and the
    failed peel of the reference fall through to this part. *)
Definition resolve_refish_revparse (str : string) : prog git_object :=
  r <- perform (git_revparse_single str) ;;
  match r with
  | GitOk obj =>
      if git_object_t_eqb (git_object_type obj) GIT_OBJECT_COMMIT then Ret obj
      else
        p <- perform (git_object_peel obj GIT_OBJECT_COMMIT) ;;
        match p with
        | GitOk peeled => perform (git_object_free obj) ;; Ret peeled
        | GitErr _ =>
            let type := git_object_type2string (git_object_type obj) in
            perform (git_object_free obj) ;;
            Raise (Rf_error ("Reference is a " ++ type ++
                             " and does not point to a commit: " ++ str))
        end
  | GitErr _ =>
      Raise (Rf_error ("Failed to find git reference '" ++ str ++ "'"))
  end.

Definition resolve_refish (string : SEXP) : prog git_object :=
  if negb (Rf_isString string) || (Rf_length string =? 0)%nat
  then Raise (Rf_error "Reference is not a string")
  else
    let str := STRING_ELT0 string in
    d <- perform (git_reference_dwim str) ;;
    match d with
    | GitOk ref =>
        p <- perform (git_reference_peel ref GIT_OBJECT_COMMIT) ;;
        match p with
        | GitOk obj => perform (git_reference_free ref) ;; Ret obj
        | GitErr _ => resolve_refish_revparse str
        end
    | GitErr _ => resolve_refish_revparse str
    end.

Definition ref_to_commit (ref : SEXP) : prog (option git_commit) :=
  revision <- resolve_refish ref ;;
  r <- perform (git_commit_lookup (git_object_id revision)) ;;
  bail_if (git_code r) "git_commit_lookup" ;;
  perform (git_object_free revision) ;;
  Ret (git_out r).

(** ** Running a program against a handler *)

(** A handler answers every external call from a state [W] (the repository
    behind the [git_repository] pointer, libgit2's error slot, the R session)
    and hands the state back. *)
Definition handler (W : Type) : Type := forall X, call X -> W -> X * W.

Inductive event : Type :=
| Called (X : Type) (c : call X).
Arguments Called {X} c.

Inductive outcome (A : Type) : Type :=
| Returns (a : A)
| Fails (e : r_error).
Arguments Returns {A} a.
Arguments Fails {A} e.

Record run_result (W A : Type) : Type := mk_run {
  result : outcome A;
  final : W;
  calls : list event
}.

Definition after {W A} (ev : event) (r : run_result W A) : run_result W A :=
  {| result := result r; final := final r; calls := ev :: calls r |}.

Fixpoint run {W A} (h : handler W) (p : prog A) (w : W) : run_result W A :=
  match p with
  | Ret a => {| result := Returns a; final := w; calls := [] |}
  | Raise e => {| result := Fails e; final := w; calls := [] |}
  | Call c k => let (x, w') := h _ c w in after (Called c) (run h (k x) w')
  end.

Definition is_revparse (ev : event) : bool :=
  match ev with
  | Called c => match c with git_revparse_single _ => true | _ => false end
  end.

Definition quiet (ev : event) : bool := negb (is_revparse ev).

(** The name lookup of lines 40 to 45 did not produce an object: the name was
    not found, or the reference it named could not be peeled to a commit.
    [w'] is the state in which line 46 is reached. *)
Definition fast_path_fails {W} (h : handler W) (str : string) (w w' : W) : Prop :=
  (exists n, h _ (git_reference_dwim str) w = (GitErr n, w')) \/
  (exists ref w1 n,
      h _ (git_reference_dwim str) w = (GitOk ref, w1) /\
      h _ (git_reference_peel ref GIT_OBJECT_COMMIT) w1 = (GitErr n, w')).

(** libgit2's contract for peeling to a commit: what comes back on [GIT_OK]
    has type commit. *)
Definition peels_to_commit {W} (h : handler W) : Prop :=
  (forall ref w obj w',
      h _ (git_reference_peel ref GIT_OBJECT_COMMIT) w = (GitOk obj, w') ->
      git_object_type obj = GIT_OBJECT_COMMIT) /\
  (forall o w obj w',
      h _ (git_object_peel o GIT_OBJECT_COMMIT) w = (GitOk obj, w') ->
      git_object_type obj = GIT_OBJECT_COMMIT).

(** libgit2's contract for [git_commit_lookup]: the commit found carries the
    id that was asked for. *)
Definition lookup_by_id {W} (h : handler W) : Prop :=
  forall id w c w',
    h _ (git_commit_lookup id) w = (GitOk c, w') -> git_commit_id c = id.

(** The two messages of the revision lookup of lines 46 to 59. *)
Definition wrong_kind_message (t : git_object_t) (str : string) : string :=
  "Reference is a " ++ git_object_type2string t ++
  " and does not point to a commit: " ++ str.

Definition not_found_message (str : string) : string :=
  "Failed to find git reference '" ++ str ++ "'".

(** ** A repository behind the calls

    libgit2 itself is not part of utils.c.  To run the programs above, the
    components that the specification describes around the resolution routine
    (object store, reference resolver, expression parser, peeling engine) are
    written out over a small in-memory repository. *)
Module Spec.

Inductive ErrorKind : Type :=
| ParseError
| NotFound
| AmbiguousPrefix
| NotAncestor
| WrongKind
| PeelError.

Inductive res (A : Type) : Type :=
| Ok (a : A)
| Error (e : ErrorKind).
Arguments Ok {A} a.
Arguments Error {A} e.

Definition and_then {A B} (r : res A) (f : A -> res B) : res B :=
  match r with Ok a => f a | Error e => Error e end.

(** Modelled from the spec: the repository state of section 3, an object store
    keyed by ObjectId and a set of references with fully-qualified names. *)
Record repository : Type := mk_repository {
  objects : list git_object;
  references : list git_reference
}.

(** Modelled from the spec: [lookup(id)] of the Object Store Accessor
    (section 6). *)
Definition lookup (repo : repository) (id : git_oid) : option git_object :=
  find (fun o => String.eqb (git_object_id o) id) (objects repo).

Inductive prefix_result : Type :=
| PrefixFound (o : git_object)
| PrefixNotFound
| PrefixAmbiguous.

(** Modelled from the spec: [lookup_prefix(hexPrefix)] of the Object Store
    Accessor (section 6); more than one match is reported, never resolved to
    the first. *)
Definition lookup_prefix (repo : repository) (hex : string) : prefix_result :=
  match filter (fun o => String.prefix hex (git_object_id o)) (objects repo) with
  | [] => PrefixNotFound
  | [o] => PrefixFound o
  | _ => PrefixAmbiguous
  end.

Definition find_reference (repo : repository) (full : string)
  : option git_reference :=
  find (fun r => String.eqb (git_reference_name r) full) (references repo).

(** Local branches before remote-tracking branches before tags. *)
Definition namespaces : list string :=
  ["refs/heads/"; "refs/remotes/"; "refs/tags/"].

Definition special_tokens : list string := ["HEAD"].

Fixpoint first_reference (repo : repository) (candidates : list string)
  : option git_reference :=
  match candidates with
  | [] => None
  | full :: rest =>
      match find_reference repo full with
      | Some r => Some r
      | None => first_reference repo rest
      end
  end.

(** Modelled from the spec: [resolve_name] of the Reference Resolver
    (section 4.1): the namespaces in priority order, then the special-token
    table, then [NotFound]. *)
Definition resolve_name (repo : repository) (name : string) : res git_reference :=
  match first_reference repo (map (fun ns => ns ++ name) namespaces) with
  | Some r => Ok r
  | None =>
      if existsb (String.eqb name) special_tokens then
        match find_reference repo name with
        | Some r => Ok r
        | None => Error NotFound
        end
      else Error NotFound
  end.

(** Modelled from the spec: direct dereference of a reference to its target
    ObjectId (section 6); a symbolic reference is followed to the reference it
    names, for at most [fuel] links. *)
Fixpoint reference_target_id (repo : repository) (fuel : nat) (r : git_reference)
  : option git_oid :=
  match git_reference_target r with
  | Direct id => Some id
  | Symbolic name =>
      match fuel with
      | O => None
      | S fuel' =>
          match find_reference repo name with
          | Some r' => reference_target_id repo fuel' r'
          | None => None
          end
      end
  end.

Definition reference_object (repo : repository) (r : git_reference)
  : option git_object :=
  match reference_target_id repo (length (references repo)) r with
  | Some id => lookup repo id
  | None => None
  end.

(** Modelled from the spec: the Peeling Engine of section 4.3, with [depth]
    the number of tag dereferences still allowed. *)
Fixpoint peel_within (repo : repository) (depth : nat) (obj : git_object)
  (target : git_object_t) : res git_object :=
  if git_object_t_eqb (git_object_type obj) target then Ok obj
  else
    match obj with
    | ObjTag _ pointee =>
        match depth with
        | O => Error PeelError
        | S depth' =>
            match lookup repo pointee with
            | Some obj' => peel_within repo depth' obj' target
            | None => Error PeelError
            end
        end
    | ObjCommit c =>
        match target with
        | GIT_OBJECT_TREE =>
            match lookup repo (git_commit_tree_id c) with
            | Some tree => Ok tree
            | None => Error PeelError
            end
        | _ => Error PeelError
        end
    | _ => Error PeelError
    end.

(** Modelled from the spec: the defined maximum depth of section 4.3; the
    spec leaves the number open. *)
Definition max_peel_depth : nat := 16.

(** Modelled from the spec: [peel(obj, target)] of section 4.3. *)
Definition peel (repo : repository) (obj : git_object) (target : git_object_t)
  : res git_object :=
  peel_within repo max_peel_depth obj target.

Inductive SuffixOp : Type :=
| Parent (n : nat)
| Generations (n : nat)
| PeelTo (kind : git_object_t).

Definition is_digit (c : ascii) : bool :=
  (48 <=? nat_of_ascii c)%nat && (nat_of_ascii c <=? 57)%nat.

Definition is_suffix_start (c : ascii) : bool :=
  Ascii.eqb c "^" || Ascii.eqb c "~".

(** The leading digits of [s] read as a number, starting from [acc], the
    number of digits read, and the rest of [s]. *)
Fixpoint read_digits (s : string) (acc count : nat) : nat * nat * string :=
  match s with
  | String c rest =>
      if is_digit c
      then read_digits rest (10 * acc + (nat_of_ascii c - 48)) (S count)
      else (acc, count, s)
  | EmptyString => (acc, count, s)
  end.

(** [s] up to the first closing brace, and what follows the brace. *)
Fixpoint until_brace (s : string) : option (string * string) :=
  match s with
  | EmptyString => None
  | String c rest =>
      if Ascii.eqb c "}" then Some (EmptyString, rest)
      else option_map (fun p => (String c (fst p), snd p)) (until_brace rest)
  end.

Definition kind_of_string (s : string) : option git_object_t :=
  if String.eqb s "commit" then Some GIT_OBJECT_COMMIT
  else if String.eqb s "tree" then Some GIT_OBJECT_TREE
  else if String.eqb s "blob" then Some GIT_OBJECT_BLOB
  else if String.eqb s "tag" then Some GIT_OBJECT_TAG
  else None.

(** The base selector: everything before the first suffix operator. *)
Fixpoint split_base (s : string) : string * string :=
  match s with
  | EmptyString => (EmptyString, EmptyString)
  | String c rest =>
      if is_suffix_start c then (EmptyString, s)
      else let (base, tail) := split_base rest in (String c base, tail)
  end.

Definition count_or_one (n count : nat) : nat :=
  match count with O => 1 | S _ => n end.

(** The chain of suffix operators, left to right; every operator consumes at
    least one character, so the length of the input bounds [fuel]. *)
Fixpoint parse_suffixes (fuel : nat) (s : string) : res (list SuffixOp) :=
  match s with
  | EmptyString => Ok []
  | String c rest =>
      match fuel with
      | O => Error ParseError
      | S fuel' =>
          if Ascii.eqb c "^" then
            match rest with
            | String "{" inner =>
                match until_brace inner with
                | Some (name, rest') =>
                    match kind_of_string name with
                    | Some kind =>
                        and_then (parse_suffixes fuel' rest')
                                 (fun ops => Ok (PeelTo kind :: ops))
                    | None => Error ParseError
                    end
                | None => Error ParseError
                end
            | _ =>
                let '(n, count, rest') := read_digits rest 0 0 in
                and_then (parse_suffixes fuel' rest')
                         (fun ops => Ok (Parent (count_or_one n count) :: ops))
            end
          else if Ascii.eqb c "~" then
            let '(n, count, rest') := read_digits rest 0 0 in
            and_then (parse_suffixes fuel' rest')
                     (fun ops => Ok (Generations (count_or_one n count) :: ops))
          else Error ParseError
      end
  end.

(** Modelled from the spec: [parse(expr)] of the Revision Expression Parser
    (section 4.2). *)
Definition parse (expr : string) : res (string * list SuffixOp) :=
  match expr with
  | EmptyString => Error ParseError
  | _ =>
      let (base, tail) := split_base expr in
      and_then (parse_suffixes (String.length tail) tail)
               (fun ops => Ok (base, ops))
  end.

(** The base selector is a name or an ObjectId prefix (section 3). *)
Definition lookup_base (repo : repository) (base : string) : res git_object :=
  match resolve_name repo base with
  | Ok r =>
      match reference_object repo r with
      | Some o => Ok o
      | None => Error NotFound
      end
  | Error _ =>
      match lookup_prefix repo base with
      | PrefixFound o => Ok o
      | PrefixNotFound => Error NotFound
      | PrefixAmbiguous => Error AmbiguousPrefix
      end
  end.

(** The [n]-th parent, counted from 1, of the commit that [obj] designates. *)
Definition nth_parent (repo : repository) (obj : git_object) (n : nat)
  : res git_object :=
  match peel repo obj GIT_OBJECT_COMMIT with
  | Ok (ObjCommit c) =>
      match n with
      | O => Error NotAncestor
      | S i =>
          match nth_error (git_commit_parents c) i with
          | Some id =>
              match lookup repo id with
              | Some o => Ok o
              | None => Error NotFound
              end
          | None => Error NotAncestor
          end
      end
  | _ => Error WrongKind
  end.

Fixpoint walk_generations (repo : repository) (obj : git_object) (n : nat)
  : res git_object :=
  match n with
  | O => Ok obj
  | S n' => and_then (nth_parent repo obj 1)
                     (fun o => walk_generations repo o n')
  end.

Definition apply_suffix (repo : repository) (obj : git_object) (op : SuffixOp)
  : res git_object :=
  match op with
  | Parent n => nth_parent repo obj n
  | Generations n => walk_generations repo obj n
  | PeelTo kind => peel repo obj kind
  end.

Fixpoint apply_suffixes (repo : repository) (obj : git_object)
  (ops : list SuffixOp) : res git_object :=
  match ops with
  | [] => Ok obj
  | op :: rest =>
      and_then (apply_suffix repo obj op)
               (fun o => apply_suffixes repo o rest)
  end.

(** Modelled from the spec: step 2 of section 4.4, full parsing, lookup of
    the base token, then every suffix operator in order. *)
Definition revparse (repo : repository) (expr : string) : res git_object :=
  and_then (parse expr)
           (fun p => and_then (lookup_base repo (fst p))
                              (fun o => apply_suffixes repo o (snd p))).

(** *** The handler *)

(** The state behind the calls: the repository snapshot and libgit2's slot
    for the last error. *)
Record world : Type := mk_world {
  snapshot : repository;
  last_error : option git_error
}.

(** libgit2's error codes and classes for the spec's error kinds. *)
Definition code_of (e : ErrorKind) : positive :=
  match e with
  | ParseError => 12
  | NotFound => 3
  | AmbiguousPrefix => 5
  | NotAncestor => 3
  | WrongKind => 12
  | PeelError => 19
  end%positive.

Definition describe (e : ErrorKind) : git_error :=
  match e with
  | ParseError => mk_git_error "failed to parse revision specifier" 3
  | NotFound => mk_git_error "no reference or object found" 4
  | AmbiguousPrefix => mk_git_error "ambiguous object id prefix" 9
  | NotAncestor => mk_git_error "requested parent does not exist" 3
  | WrongKind => mk_git_error "object is not a commit" 11
  | PeelError => mk_git_error "the object cannot be peeled" 11
  end%Z.

Definition answer {A} (r : res A) (w : world) : git_result A * world :=
  match r with
  | Ok a => (GitOk a, w)
  | Error e =>
      (GitErr (code_of e),
       {| snapshot := snapshot w; last_error := Some (describe e) |})
  end.

Definition commit_of (repo : repository) (id : git_oid) : res git_commit :=
  match lookup repo id with
  | Some (ObjCommit c) => Ok c
  | _ => Error NotFound
  end.

Definition peel_reference (repo : repository) (r : git_reference)
  (target : git_object_t) : res git_object :=
  match reference_object repo r with
  | Some o => peel repo o target
  | None => Error NotFound
  end.

(** Every call answered from the repository model; the R function
    [raise_libgit2_error] signals its condition and does not return. *)
Definition libgit2 : handler world :=
  fun X c =>
    match c in call X return world -> X * world with
    | git_reference_dwim str => fun w => answer (resolve_name (snapshot w) str) w
    | git_reference_peel ref target =>
        fun w => answer (peel_reference (snapshot w) ref target) w
    | git_reference_free _ => fun w => (tt, w)
    | git_revparse_single str => fun w => answer (revparse (snapshot w) str) w
    | git_object_peel obj target =>
        fun w => answer (peel (snapshot w) obj target) w
    | git_object_free _ => fun w => (tt, w)
    | git_commit_lookup id => fun w => answer (commit_of (snapshot w) id) w
    | giterr_last => fun w => (last_error w, w)
    | raise_libgit2_error _ _ _ _ => fun w => (Jumped, w)
    end.
Arguments libgit2 : clear implicits.

(** *** A sample repository *)

Definition c_root : git_commit := mk_commit "1f00aa" "7e0001" [].
Definition c_main : git_commit := mk_commit "abc1234" "7e0002" ["1f00aa"].
Definition c_side : git_commit := mk_commit "d00d42" "7e0002" ["abc1234"].

(** Two commits on [main], a branch whose name is literally [main~1], a tag
    of a tag of a commit, and a tag of a tree. *)
Definition sample : repository :=
  {| objects :=
       [ ObjCommit c_root; ObjCommit c_main; ObjCommit c_side;
         ObjTree "7e0001"; ObjTree "7e0002"; ObjBlob "b10b01";
         ObjTag "7a0001" "abc1234"; ObjTag "7a0002" "7a0001";
         ObjTag "7a0003" "7e0001" ];
     references :=
       [ mk_reference "HEAD" (Symbolic "refs/heads/main");
         mk_reference "refs/heads/main" (Direct "abc1234");
         mk_reference "refs/heads/main~1" (Direct "d00d42");
         mk_reference "refs/tags/v1" (Direct "7a0002");
         mk_reference "refs/tags/snapshot" (Direct "7a0003") ] |}.

Definition fresh (repo : repository) : world :=
  {| snapshot := repo; last_error := None |}.

(** The state after a call has failed with [e]. *)
Definition failed (repo : repository) (e : ErrorKind) : world :=
  {| snapshot := repo; last_error := Some (describe e) |}.

End Spec.

(** ** Which calls a program makes *)

(** The calls that consult the repository, as opposed to libgit2's error slot
    and the R session. *)
Definition reads_repository {X} (c : call X) : bool :=
  match c with
  | giterr_last => false
  | raise_libgit2_error _ _ _ _ => false
  | _ => true
  end.

(** Every call of the program, on every path, satisfies [allowed]. *)
Inductive only_calls (allowed : forall X, call X -> bool) {A : Type}
  : prog A -> Prop :=
| only_ret : forall a, only_calls allowed (Ret a)
| only_raise : forall e, only_calls allowed (Raise e)
| only_call : forall X (c : call X) (k : X -> prog A),
    allowed X c = true ->
    (forall x, only_calls allowed (k x)) ->
    only_calls allowed (Call c k).

(** ** More of utils.c over the same calls *)

(** A pointer is [None] when it is [NULL]. *)
Definition bail_if_null {A} (ptr : option A) (what : string) : prog unit :=
  match ptr with
  | None => bail_if (-1) what
  | Some _ => Ret tt
  end.

(** The objects and references that a run released. *)
Definition freed_objects (evs : list event) : list git_object :=
  flat_map (fun ev =>
              match ev with
              | Called c =>
                  match c with git_object_free o => [o] | _ => [] end
              end) evs.

Definition freed_references (evs : list event) : list git_reference :=
  flat_map (fun ev =>
              match ev with
              | Called c =>
                  match c with git_reference_free r => [r] | _ => [] end
              end) evs.

(** The repository model with an object database that cannot produce
    commits: every [git_commit_lookup] fails, the other calls are answered as
    by [Spec.libgit2]. *)
Definition unreadable_commits : handler Spec.world :=
  fun X c =>
    match c in call X return Spec.world -> X * Spec.world with
    | git_commit_lookup _ =>
        fun w => Spec.answer (Spec.Error Spec.NotFound) w
    | git_reference_dwim str => Spec.libgit2 _ (git_reference_dwim str)
    | git_reference_peel ref target =>
        Spec.libgit2 _ (git_reference_peel ref target)
    | git_reference_free ref => Spec.libgit2 _ (git_reference_free ref)
    | git_revparse_single str => Spec.libgit2 _ (git_revparse_single str)
    | git_object_peel obj target => Spec.libgit2 _ (git_object_peel obj target)
    | git_object_free obj => Spec.libgit2 _ (git_object_free obj)
    | giterr_last => Spec.libgit2 _ giterr_last
    | raise_libgit2_error code msg wheregit kclass =>
        Spec.libgit2 _ (raise_libgit2_error code msg wheregit kclass)
    end.

(** The same, with a [git_commit_lookup] that returns its error code without
    recording an error, the case for which [bail_if] provides when it finds
    [giterr_last] empty: the error slot keeps what it held before. *)
Definition silent_lookup_failures : handler Spec.world :=
  fun X c =>
    match c in call X return Spec.world -> X * Spec.world with
    | git_commit_lookup _ => fun w => (GitErr 3%positive, w)
    | git_reference_dwim str => Spec.libgit2 _ (git_reference_dwim str)
    | git_reference_peel ref target =>
        Spec.libgit2 _ (git_reference_peel ref target)
    | git_reference_free ref => Spec.libgit2 _ (git_reference_free ref)
    | git_revparse_single str => Spec.libgit2 _ (git_revparse_single str)
    | git_object_peel obj target => Spec.libgit2 _ (git_object_peel obj target)
    | git_object_free obj => Spec.libgit2 _ (git_object_free obj)
    | giterr_last => Spec.libgit2 _ giterr_last
    | raise_libgit2_error code msg wheregit kclass =>
        Spec.libgit2 _ (raise_libgit2_error code msg wheregit kclass)
    end.
Arguments silent_lookup_failures : clear implicits.

(** ** R values as the list builders of utils.c make them *)

Module RObjects.

Inductive cetype_t : Type := CE_NATIVE | CE_UTF8.

Inductive CHARSXP : Type :=
| NA_STRING
| mkCharCE (s : string) (enc : cetype_t).

Definition R_BlankString : CHARSXP := mkCharCE "" CE_NATIVE.

Inductive symbol : Type := R_NamesSymbol | R_RowNamesSymbol | R_ClassSymbol.

Definition symbol_eqb (a b : symbol) : bool :=
  match a, b with
  | R_NamesSymbol, R_NamesSymbol => true
  | R_RowNamesSymbol, R_RowNamesSymbol => true
  | R_ClassSymbol, R_ClassSymbol => true
  | _, _ => false
  end.

Inductive SEXPTYPE : Type := NILSXP | INTSXP | STRSXP | VECSXP.

(** A vector with its attribute list, or [R_NilValue]. *)
#[warnings="-register-all"]
Inductive SEXP : Type :=
| R_NilValue
| IntVector (v : list Z) (attrib : list (symbol * SEXP))
| StrVector (v : list CHARSXP) (attrib : list (symbol * SEXP))
| ListVector (v : list SEXP) (attrib : list (symbol * SEXP)).

Definition TYPEOF (x : SEXP) : SEXPTYPE :=
  match x with
  | R_NilValue => NILSXP
  | IntVector _ _ => INTSXP
  | StrVector _ _ => STRSXP
  | ListVector _ _ => VECSXP
  end.

Definition ATTRIB (x : SEXP) : list (symbol * SEXP) :=
  match x with
  | R_NilValue => []
  | IntVector _ a => a
  | StrVector _ a => a
  | ListVector _ a => a
  end.

Definition Rf_length (x : SEXP) : nat :=
  match x with
  | R_NilValue => 0
  | IntVector v _ => length v
  | StrVector v _ => length v
  | ListVector v _ => length v
  end.

(** [Rf_allocVector]: a character vector starts out with blank strings, a
    list with [R_NilValue]; the cells of an integer vector are unspecified
    until written and stand as 0 here. *)
Definition Rf_allocVector (type : SEXPTYPE) (n : nat) : SEXP :=
  match type with
  | NILSXP => R_NilValue
  | INTSXP => IntVector (repeat 0%Z n) []
  | STRSXP => StrVector (repeat R_BlankString n) []
  | VECSXP => ListVector (repeat R_NilValue n) []
  end.

(** The element at [i] replaced; nothing changes when [i] is out of range. *)
Fixpoint set_nth {A} (i : nat) (a : A) (l : list A) : list A :=
  match l, i with
  | [], _ => []
  | _ :: rest, O => a :: rest
  | b :: rest, S i' => b :: set_nth i' a rest
  end.

(** The element setters and getters signal an R error, [None] here, on a
    vector of another type and on an index out of range. *)
Definition SET_STRING_ELT (x : SEXP) (i : nat) (v : CHARSXP) : option SEXP :=
  match x with
  | StrVector l a =>
      if (i <? length l)%nat then Some (StrVector (set_nth i v l) a) else None
  | _ => None
  end.

Definition SET_VECTOR_ELT (x : SEXP) (i : nat) (v : SEXP) : option SEXP :=
  match x with
  | ListVector l a =>
      if (i <? length l)%nat then Some (ListVector (set_nth i v l) a) else None
  | _ => None
  end.

Definition SET_INTEGER_ELT (x : SEXP) (i : nat) (v : Z) : option SEXP :=
  match x with
  | IntVector l a =>
      if (i <? length l)%nat then Some (IntVector (set_nth i v l) a) else None
  | _ => None
  end.

Definition VECTOR_ELT (x : SEXP) (i : nat) : option SEXP :=
  match x with
  | ListVector l _ => nth_error l i
  | _ => None
  end.

Fixpoint installAttrib (attrib : list (symbol * SEXP)) (name : symbol)
  (val : SEXP) : list (symbol * SEXP) :=
  match attrib with
  | [] => [(name, val)]
  | (tag, old) :: rest =>
      if symbol_eqb tag name then (tag, val) :: rest
      else (tag, old) :: installAttrib rest name val
  end.

Definition removeAttrib (attrib : list (symbol * SEXP)) (name : symbol)
  : list (symbol * SEXP) :=
  filter (fun p => negb (symbol_eqb (fst p) name)) attrib.

Definition SET_ATTRIB (x : SEXP) (a : list (symbol * SEXP)) : SEXP :=
  match x with
  | R_NilValue => R_NilValue
  | IntVector v _ => IntVector v a
  | StrVector v _ => StrVector v a
  | ListVector v _ => ListVector v a
  end.

(** [Rf_setAttrib] for the values utils.c passes: [R_NilValue] as value
    removes the attribute, [R_NilValue] as target is an R error, and
    otherwise the attribute is replaced where it stands or added at the
    end. *)
Definition Rf_setAttrib (vec : SEXP) (name : symbol) (val : SEXP) : option SEXP :=
  match val with
  | R_NilValue => Some (SET_ATTRIB vec (removeAttrib (ATTRIB vec) name))
  | _ =>
      match vec with
      | R_NilValue => None
      | _ => Some (SET_ATTRIB vec (installAttrib (ATTRIB vec) name val))
      end
  end.

Fixpoint Rf_getAttrib_list (attrib : list (symbol * SEXP)) (name : symbol) : SEXP :=
  match attrib with
  | [] => R_NilValue
  | (tag, val) :: rest =>
      if symbol_eqb tag name then val else Rf_getAttrib_list rest name
  end.

Definition Rf_getAttrib (vec : SEXP) (name : symbol) : SEXP :=
  Rf_getAttrib_list (ATTRIB vec) name.

(** *** The protection stack *)

(** A C function of the R API runs against the top of the pointer
    protection stack and ends in a value or in an R error ([None]). *)
Definition R (A : Type) : Type := nat -> option (A * nat).

Definition ret {A} (a : A) : R A := fun top => Some (a, top).

Definition and_then {A B} (m : R A) (f : A -> R B) : R B :=
  fun top =>
    match m top with
    | Some (a, top') => f a top'
    | None => None
    end.

Notation "'let*' x ':=' m 'in' f" := (and_then m (fun x => f))
  (at level 10, x name, m at level 100, f at level 200).

Definition lift {A} (o : option A) : R A :=
  fun top => match o with Some a => Some (a, top) | None => None end.

Definition PROTECT (x : SEXP) : R SEXP := fun top => Some (x, S top).

(** [UNPROTECT(n)] with fewer than [n] protected pointers is an R error. *)
Definition UNPROTECT (n : nat) : R unit :=
  fun top => if (n <=? top)%nat then Some (tt, top - n) else None.

(** *** utils.c, lines 70 to 125 and 142 to 192 *)

(** The variadic arguments: C strings, [None] for [NULL], and R values.
    Reading past the end, or an argument of the other type, is undefined in
    C; the loops end in [None] there. *)
Inductive va_item : Type :=
| va_str (x : option string)
| va_sexp (x : SEXP).

Definition safe_char (x : option string) : CHARSXP :=
  match x with
  | None => NA_STRING
  | Some s => mkCharCE s CE_UTF8
  end.

Definition Rf_ScalarString (c : CHARSXP) : SEXP := StrVector [c] [].

Definition Rf_mkString (s : string) : SEXP := StrVector [mkCharCE s CE_NATIVE] [].

Definition safe_string (x : option string) : SEXP :=
  Rf_ScalarString (safe_char x).

Definition string_or_null (x : option string) : SEXP :=
  match x with
  | None => R_NilValue
  | Some s => Rf_mkString s
  end.

(** The loop of [make_strvec] with [iters] rounds to go, at index [i]. *)
Fixpoint make_strvec_loop (iters i : nat) (args : list va_item) (out : SEXP)
  : option SEXP :=
  match iters with
  | O => Some out
  | S iters' =>
      match args with
      | va_str val :: args' =>
          match SET_STRING_ELT out i (safe_char val) with
          | Some out' => make_strvec_loop iters' (S i) args' out'
          | None => None
          end
      | _ => None
      end
  end.

Definition make_strvec (n : nat) (args : list va_item) : R SEXP :=
  let* out := PROTECT (Rf_allocVector STRSXP n) in
  let* out := lift (make_strvec_loop n 0 args out) in
  let* _ := UNPROTECT 1 in
  ret out.

(** The loop of [build_list_internal]: a name, then a value, per round. *)
Fixpoint build_list_loop (iters i : nat) (args : list va_item)
  (names vec : SEXP) : option (SEXP * SEXP) :=
  match iters with
  | O => Some (names, vec)
  | S iters' =>
      match args with
      | va_str name :: va_sexp val :: args' =>
          match SET_STRING_ELT names i (safe_char name) with
          | Some names' =>
              match SET_VECTOR_ELT vec i val with
              | Some vec' => build_list_loop iters' (S i) args' names' vec'
              | None => None
              end
          | None => None
          end
      | _ => None
      end
  end.

Definition build_list_internal (n : nat) (args : list va_item) : R SEXP :=
  let* names := PROTECT (Rf_allocVector STRSXP n) in
  let* vec := PROTECT (Rf_allocVector VECSXP n) in
  let* filled := lift (build_list_loop n 0 args names vec) in
  let* vec := lift (Rf_setAttrib (snd filled) R_NamesSymbol (fst filled)) in
  let* _ := UNPROTECT 2 in
  ret vec.

(** The loop of [list_to_tibble]: cell [j] receives [j + 1]. *)
Fixpoint rownames_loop (iters j : nat) (rownames : SEXP) : option SEXP :=
  match iters with
  | O => Some rownames
  | S iters' =>
      match SET_INTEGER_ELT rownames j (Z.of_nat j + 1) with
      | Some rownames' => rownames_loop iters' (S j) rownames'
      | None => None
      end
  end.

Definition list_to_tibble (df : SEXP) : R SEXP :=
  let* df := PROTECT df in
  let* nrows := lift (if (Rf_length df =? 0)%nat then Some 0
                      else option_map Rf_length (VECTOR_ELT df 0)) in
  let* rownames := PROTECT (Rf_allocVector INTSXP nrows) in
  let* rownames := lift (rownames_loop nrows 0 rownames) in
  let* df := lift (Rf_setAttrib df R_RowNamesSymbol rownames) in
  let* class := make_strvec 3 [va_str (Some "tbl_df"); va_str (Some "tbl");
                               va_str (Some "data.frame")] in
  let* df := lift (Rf_setAttrib df R_ClassSymbol class) in
  let* _ := UNPROTECT 2 in
  ret df.

(** The wrappers with a hardcoded [UNPROTECT(n)]. *)
Definition build_list1 (xna1 : option string) (xnb1 : SEXP) : R SEXP :=
  let* out := build_list_internal 1 [va_str xna1; va_sexp xnb1] in
  let* _ := UNPROTECT 1 in
  ret out.

Definition build_list2 (xna1 : option string) (xnb1 : SEXP)
  (xna2 : option string) (xnb2 : SEXP) : R SEXP :=
  let* out := build_list_internal 2 [va_str xna1; va_sexp xnb1;
                                     va_str xna2; va_sexp xnb2] in
  let* _ := UNPROTECT 2 in
  ret out.

Definition build_list3 (xna1 : option string) (xnb1 : SEXP)
  (xna2 : option string) (xnb2 : SEXP) (xna3 : option string) (xnb3 : SEXP)
  : R SEXP :=
  let* out := build_list_internal 3 [va_str xna1; va_sexp xnb1;
                                     va_str xna2; va_sexp xnb2;
                                     va_str xna3; va_sexp xnb3] in
  let* _ := UNPROTECT 3 in
  ret out.

Definition build_list4 (xna1 : option string) (xnb1 : SEXP)
  (xna2 : option string) (xnb2 : SEXP) (xna3 : option string) (xnb3 : SEXP)
  (xna4 : option string) (xnb4 : SEXP) : R SEXP :=
  let* out := build_list_internal 4 [va_str xna1; va_sexp xnb1;
                                     va_str xna2; va_sexp xnb2;
                                     va_str xna3; va_sexp xnb3;
                                     va_str xna4; va_sexp xnb4] in
  let* _ := UNPROTECT 4 in
  ret out.

Definition build_list5 (xna1 : option string) (xnb1 : SEXP)
  (xna2 : option string) (xnb2 : SEXP) (xna3 : option string) (xnb3 : SEXP)
  (xna4 : option string) (xnb4 : SEXP) (xna5 : option string) (xnb5 : SEXP)
  : R SEXP :=
  let* out := build_list_internal 5 [va_str xna1; va_sexp xnb1;
                                     va_str xna2; va_sexp xnb2;
                                     va_str xna3; va_sexp xnb3;
                                     va_str xna4; va_sexp xnb4;
                                     va_str xna5; va_sexp xnb5] in
  let* _ := UNPROTECT 5 in
  ret out.

Definition build_list6 (xna1 : option string) (xnb1 : SEXP)
  (xna2 : option string) (xnb2 : SEXP) (xna3 : option string) (xnb3 : SEXP)
  (xna4 : option string) (xnb4 : SEXP) (xna5 : option string) (xnb5 : SEXP)
  (xna6 : option string) (xnb6 : SEXP) : R SEXP :=
  let* out := build_list_internal 6 [va_str xna1; va_sexp xnb1;
                                     va_str xna2; va_sexp xnb2;
                                     va_str xna3; va_sexp xnb3;
                                     va_str xna4; va_sexp xnb4;
                                     va_str xna5; va_sexp xnb5;
                                     va_str xna6; va_sexp xnb6] in
  let* _ := UNPROTECT 6 in
  ret out.

Definition build_list7 (xna1 : option string) (xnb1 : SEXP)
  (xna2 : option string) (xnb2 : SEXP) (xna3 : option string) (xnb3 : SEXP)
  (xna4 : option string) (xnb4 : SEXP) (xna5 : option string) (xnb5 : SEXP)
  (xna6 : option string) (xnb6 : SEXP) (xna7 : option string) (xnb7 : SEXP)
  : R SEXP :=
  let* out := build_list_internal 7 [va_str xna1; va_sexp xnb1;
                                     va_str xna2; va_sexp xnb2;
                                     va_str xna3; va_sexp xnb3;
                                     va_str xna4; va_sexp xnb4;
                                     va_str xna5; va_sexp xnb5;
                                     va_str xna6; va_sexp xnb6;
                                     va_str xna7; va_sexp xnb7] in
  let* _ := UNPROTECT 7 in
  ret out.

Definition build_list8 (xna1 : option string) (xnb1 : SEXP)
  (xna2 : option string) (xnb2 : SEXP) (xna3 : option string) (xnb3 : SEXP)
  (xna4 : option string) (xnb4 : SEXP) (xna5 : option string) (xnb5 : SEXP)
  (xna6 : option string) (xnb6 : SEXP) (xna7 : option string) (xnb7 : SEXP)
  (xna8 : option string) (xnb8 : SEXP) : R SEXP :=
  let* out := build_list_internal 8 [va_str xna1; va_sexp xnb1;
                                     va_str xna2; va_sexp xnb2;
                                     va_str xna3; va_sexp xnb3;
                                     va_str xna4; va_sexp xnb4;
                                     va_str xna5; va_sexp xnb5;
                                     va_str xna6; va_sexp xnb6;
                                     va_str xna7; va_sexp xnb7;
                                     va_str xna8; va_sexp xnb8] in
  let* _ := UNPROTECT 8 in
  ret out.

(** *** What the builders are expected to produce *)

(** Names and values as they follow each other in the argument list. *)
Definition va_pairs (pairs : list (option string * SEXP)) : list va_item :=
  flat_map (fun p => [va_str (fst p); va_sexp (snd p)]) pairs.

(** The list of the values, named by the names. *)
Definition named_list (pairs : list (option string * SEXP)) : SEXP :=
  ListVector (map snd pairs)
    [(R_NamesSymbol, StrVector (map (fun p => safe_char (fst p)) pairs) [])].

(** The integers 1 to [n]. *)
Definition row_names (n : nat) : SEXP :=
  IntVector (map Z.of_nat (seq 1 n)) [].

Definition tibble_class : SEXP :=
  StrVector [mkCharCE "tbl_df" CE_UTF8; mkCharCE "tbl" CE_UTF8;
             mkCharCE "data.frame" CE_UTF8] [].

End RObjects.

(** * Properties *)

Unset Implicit Arguments.

(** ** Running programs *)

Section Running.

Variable W : Type.
Variable h : handler W.

Lemma run_call : forall A X (c : call X) (k : X -> prog A) w x w',
  h _ c w = (x, w') ->
  run h (Call c k) w = after (Called c) (run h (k x) w').
Proof.
  intros A X c k w x w' H. simpl. rewrite H. reflexivity.
Qed.

Lemma run_bind : forall A B (p : prog A) (f : A -> prog B) w,
  run h (bind p f) w =
  match result (run h p w) with
  | Returns a =>
      let r := run h (f a) (final (run h p w)) in
      {| result := result r; final := final r;
         calls := calls (run h p w) ++ calls r |}
  | Fails e =>
      {| result := Fails e; final := final (run h p w);
         calls := calls (run h p w) |}
  end.
Proof.
  induction p as [a | e | X c k IH]; intros f w; simpl.
  - destruct (run h (f a) w); reflexivity.
  - reflexivity.
  - destruct (h X c w) as [x w']. simpl. rewrite IH.
    destruct (result (run h (k x) w')); reflexivity.
Qed.

(** A part of the state that no call changes is not changed by any program. *)
Lemma run_preserves : forall (S : Type) (view : W -> S),
  (forall X (c : call X) w, view (snd (h _ c w)) = view w) ->
  forall A (p : prog A) w, view (final (run h p w)) = view w.
Proof.
  intros S view Hview A p.
  induction p as [a | e | X c k IH]; intros w; simpl; try reflexivity.
  specialize (Hview X c w). destruct (h X c w) as [x w']. simpl in *.
  rewrite IH. exact Hview.
Qed.

(** When the answers to the allowed calls depend only on a part of the state
    that no call changes, a program restricted to those calls has the same
    result and makes the same calls from any two states that agree on it. *)
Lemma run_determined : forall (S : Type) (view : W -> S) allowed,
  (forall X (c : call X) w, view (snd (h _ c w)) = view w) ->
  (forall X (c : call X) w1 w2,
      allowed X c = true -> view w1 = view w2 ->
      fst (h _ c w1) = fst (h _ c w2)) ->
  forall A (p : prog A), only_calls allowed p ->
  forall w1 w2, view w1 = view w2 ->
    result (run h p w1) = result (run h p w2) /\
    calls (run h p w1) = calls (run h p w2).
Proof.
  intros S view allowed Hkeep Hdet A p Hp.
  induction Hp as [a | e | X c k Hc _ IH]; intros w1 w2 Hw; simpl; auto.
  pose proof (Hdet X c w1 w2 Hc Hw) as Hx.
  pose proof (Hkeep X c w1) as H1. pose proof (Hkeep X c w2) as H2.
  destruct (h X c w1) as [x1 v1]; destruct (h X c w2) as [x2 v2].
  simpl in *. subst x2.
  destruct (IH x1 v1 v2) as [Hr Hc']; [congruence |].
  rewrite Hr, Hc'. auto.
Qed.

End Running.

Lemma resolve_refish_revparse_reads : forall str,
  only_calls (@reads_repository) (resolve_refish_revparse str).
Proof.
  intros str. unfold resolve_refish_revparse, perform. simpl.
  constructor; [reflexivity |]. intros [obj | n]; [| constructor].
  destruct (git_object_t_eqb (git_object_type obj) GIT_OBJECT_COMMIT);
    [constructor |].
  simpl. constructor; [reflexivity |].
  intros [peeled | n]; simpl; constructor; try reflexivity;
    intros; constructor.
Qed.

Lemma resolve_refish_reads : forall x,
  only_calls (@reads_repository) (resolve_refish x).
Proof.
  intros x. unfold resolve_refish.
  destruct (negb (Rf_isString x) || (Rf_length x =? 0)%nat); [constructor |].
  unfold perform. simpl. constructor; [reflexivity |].
  intros [ref | n]; [| apply resolve_refish_revparse_reads].
  simpl. constructor; [reflexivity |].
  intros [obj | n]; [| apply resolve_refish_revparse_reads].
  simpl. constructor; [reflexivity |]. intros; constructor.
Qed.

(** ** The two messages determine what they report *)

Lemma git_object_t_eqb_eq : forall a b,
  git_object_t_eqb a b = true <-> a = b.
Proof.
  intros a b; split.
  - destruct a, b; simpl; intros H; try reflexivity; discriminate H.
  - intros ->. destruct b; reflexivity.
Qed.

Lemma length_append : forall s t,
  String.length (s ++ t)%string = String.length s + String.length t.
Proof.
  induction s as [| a s IH]; intros t; simpl; [reflexivity | now rewrite IH].
Qed.

Lemma append_cancel_r : forall t s1 s2,
  (s1 ++ t)%string = (s2 ++ t)%string -> s1 = s2.
Proof.
  intros t s1 s2 H.
  assert (Hlen : String.length s1 = String.length s2).
  { apply (f_equal String.length) in H. rewrite !length_append in H. lia. }
  revert s2 H Hlen.
  induction s1 as [| a s1 IH]; intros [| b s2] H Hlen; simpl in *;
    try discriminate; try reflexivity.
  injection H as -> H. f_equal. apply IH; [exact H | lia].
Qed.

Lemma not_found_message_inj : forall s1 s2,
  not_found_message s1 = not_found_message s2 -> s1 = s2.
Proof.
  intros s1 s2 H. unfold not_found_message in H. simpl in H.
  inversion H as [H']. exact (append_cancel_r _ _ _ H').
Qed.

Lemma wrong_kind_message_inj : forall t1 s1 t2 s2,
  wrong_kind_message t1 s1 = wrong_kind_message t2 s2 -> t1 = t2 /\ s1 = s2.
Proof.
  intros t1 s1 t2 s2 H. unfold wrong_kind_message in H.
  destruct t1, t2; simpl in H; inversion H; split; reflexivity.
Qed.

(** ** resolve_refish, for every handler *)

Section Resolution.

Variable W : Type.
Variable h : handler W.

(** A character vector with a first element passes the guard of line 35, and
    the first call is the name lookup on that element. *)
Lemma resolve_refish_string : forall str rest,
  resolve_refish (STRSXP (str :: rest)) =
  Call (git_reference_dwim str) (fun d =>
    match d with
    | GitOk ref =>
        Call (git_reference_peel ref GIT_OBJECT_COMMIT) (fun p =>
          match p with
          | GitOk obj => Call (git_reference_free ref) (fun _ => Ret obj)
          | GitErr _ => resolve_refish_revparse str
          end)
    | GitErr _ => resolve_refish_revparse str
    end).
Proof.
  intros str rest. unfold resolve_refish, perform. simpl.
  f_equal.
Qed.

(** When the name lookup yields no object, the rest of the run is the run of
    the revision lookup from the state reached; what came before contains no
    call of [git_revparse_single]. *)
Lemma resolve_refish_falls_through : forall str rest w w',
  fast_path_fails h str w w' ->
  exists pre,
    forallb quiet pre = true /\
    hd_error pre = Some (Called (git_reference_dwim str)) /\
    run h (resolve_refish (STRSXP (str :: rest))) w =
    {| result := result (run h (resolve_refish_revparse str) w');
       final := final (run h (resolve_refish_revparse str) w');
       calls := pre ++ calls (run h (resolve_refish_revparse str) w') |}.
Proof.
  intros str rest w w' [[n Hd] | (ref & w1 & n & Hd & Hp)];
    rewrite resolve_refish_string.
  - exists [Called (git_reference_dwim str)].
    repeat split. rewrite (run_call W h _ _ _ _ _ _ _ Hd). reflexivity.
  - exists [Called (git_reference_dwim str);
            Called (git_reference_peel ref GIT_OBJECT_COMMIT)].
    repeat split. rewrite (run_call W h _ _ _ _ _ _ _ Hd).
    rewrite (run_call W h _ _ _ _ _ _ _ Hp). reflexivity.
Qed.

Lemma revparse_starts : forall str w,
  hd_error (calls (run h (resolve_refish_revparse str) w)) =
  Some (Called (git_revparse_single str)).
Proof.
  intros str w. unfold resolve_refish_revparse, perform. simpl.
  destruct (h _ (git_revparse_single str) w). reflexivity.
Qed.

Lemma revparse_not_found : forall str w n w',
  h _ (git_revparse_single str) w = (GitErr n, w') ->
  run h (resolve_refish_revparse str) w =
  {| result := Fails (Rf_error (not_found_message str));
     final := w';
     calls := [Called (git_revparse_single str)] |}.
Proof.
  intros str w n w' H. unfold resolve_refish_revparse, perform. simpl.
  rewrite H. reflexivity.
Qed.

Lemma revparse_wrong_kind : forall str w obj w1 n w2,
  h _ (git_revparse_single str) w = (GitOk obj, w1) ->
  git_object_type obj <> GIT_OBJECT_COMMIT ->
  h _ (git_object_peel obj GIT_OBJECT_COMMIT) w1 = (GitErr n, w2) ->
  result (run h (resolve_refish_revparse str) w) =
  Fails (Rf_error (wrong_kind_message (git_object_type obj) str)).
Proof.
  intros str w obj w1 n w2 Hr Hty Hp.
  unfold resolve_refish_revparse, perform. simpl. rewrite Hr. simpl.
  destruct (git_object_t_eqb (git_object_type obj) GIT_OBJECT_COMMIT) eqn:E.
  - apply git_object_t_eqb_eq in E. contradiction.
  - simpl. rewrite Hp. simpl.
    destruct (h _ (git_object_free obj) w2). reflexivity.
Qed.

(** What the revision lookup returns is a commit it found or a commit it
    peeled to. *)
Lemma revparse_returns : forall str w obj,
  result (run h (resolve_refish_revparse str) w) = Returns obj ->
  (exists w1, h _ (git_revparse_single str) w = (GitOk obj, w1) /\
              git_object_type obj = GIT_OBJECT_COMMIT) \/
  (exists found w1 w2,
      h _ (git_revparse_single str) w = (GitOk found, w1) /\
      git_object_type found <> GIT_OBJECT_COMMIT /\
      h _ (git_object_peel found GIT_OBJECT_COMMIT) w1 = (GitOk obj, w2)).
Proof.
  intros str w obj. unfold resolve_refish_revparse, perform. simpl.
  destruct (h _ (git_revparse_single str) w) as [[found | n] w1] eqn:Hr;
    simpl; [| discriminate].
  destruct (git_object_t_eqb (git_object_type found) GIT_OBJECT_COMMIT) eqn:E.
  - simpl. intros H. injection H as ->. left. exists w1. split; [reflexivity |].
    now apply git_object_t_eqb_eq.
  - simpl.
    destruct (h _ (git_object_peel found GIT_OBJECT_COMMIT) w1)
      as [[peeled | n] w2] eqn:Hp; simpl;
      destruct (h _ (git_object_free found) w2); simpl; [| discriminate].
    intros H. injection H as ->. right. exists found, w1, w2.
    split; [reflexivity |]. split; [| exact Hp].
    intros Hty. apply git_object_t_eqb_eq in Hty. congruence.
Qed.

(** The name lookup found a reference and the reference peeled to a commit. *)
Lemma resolve_refish_fast : forall str rest w ref w1 obj w2,
  h _ (git_reference_dwim str) w = (GitOk ref, w1) ->
  h _ (git_reference_peel ref GIT_OBJECT_COMMIT) w1 = (GitOk obj, w2) ->
  run h (resolve_refish (STRSXP (str :: rest))) w =
  {| result := Returns obj;
     final := snd (h _ (git_reference_free ref) w2);
     calls := [Called (git_reference_dwim str);
               Called (git_reference_peel ref GIT_OBJECT_COMMIT);
               Called (git_reference_free ref)] |}.
Proof.
  intros str rest w ref w1 obj w2 Hd Hp. rewrite resolve_refish_string.
  rewrite (run_call W h _ _ _ _ _ _ _ Hd), (run_call W h _ _ _ _ _ _ _ Hp).
  simpl. destruct (h _ (git_reference_free ref) w2). reflexivity.
Qed.

(** The name lookup either produces an object or it does not. *)
Lemma fast_path_decides : forall str w,
  (exists ref w1 obj w2,
      h _ (git_reference_dwim str) w = (GitOk ref, w1) /\
      h _ (git_reference_peel ref GIT_OBJECT_COMMIT) w1 = (GitOk obj, w2)) \/
  (exists w', fast_path_fails h str w w').
Proof.
  intros str w. unfold fast_path_fails.
  destruct (h _ (git_reference_dwim str) w) as [[ref | n] w1] eqn:Hd.
  - destruct (h _ (git_reference_peel ref GIT_OBJECT_COMMIT) w1)
      as [[obj | n] w2] eqn:Hp.
    + left. exists ref, w1, obj, w2. auto.
    + right. exists w2. right. exists ref, w1, n. auto.
  - right. exists w1. left. exists n. reflexivity.
Qed.

(** Anything but a character vector with at least one element is refused
    before any call is made. *)
Lemma resolve_refish_refuses : forall x,
  Rf_isString x = false \/ Rf_length x = 0 ->
  resolve_refish x = Raise (Rf_error "Reference is not a string").
Proof.
  intros x [H | H]; unfold resolve_refish; rewrite H; simpl; [reflexivity |].
  rewrite orb_true_r. reflexivity.
Qed.

Lemma resolve_refish_accepts : forall x,
  Rf_isString x = true -> Rf_length x <> 0 ->
  exists rest, x = STRSXP (STRING_ELT0 x :: rest).
Proof.
  intros [| v | v | [| s rest] | len] Hs Hl; simpl in *;
    try discriminate; try contradiction.
  exists rest. reflexivity.
Qed.

(** C1.  On a character vector whose first element is [str], the name lookup
    comes first: when [git_reference_dwim] finds a reference and that
    reference peels to a commit, that commit is returned after exactly three
    calls, none of which is [git_revparse_single]; and when the name lookup
    yields no object, the run continues as the revision lookup on [str],
    which opens with [git_revparse_single], and nothing before it is a
    revision lookup. *)
Theorem resolve_refish_name_first : forall str rest w,
  (forall ref w1 obj w2,
      h _ (git_reference_dwim str) w = (GitOk ref, w1) ->
      h _ (git_reference_peel ref GIT_OBJECT_COMMIT) w1 = (GitOk obj, w2) ->
      result (run h (resolve_refish (STRSXP (str :: rest))) w) = Returns obj /\
      calls (run h (resolve_refish (STRSXP (str :: rest))) w) =
        [Called (git_reference_dwim str);
         Called (git_reference_peel ref GIT_OBJECT_COMMIT);
         Called (git_reference_free ref)] /\
      existsb is_revparse
        (calls (run h (resolve_refish (STRSXP (str :: rest))) w)) = false) /\
  (forall w',
      fast_path_fails h str w w' ->
      exists pre,
        forallb quiet pre = true /\
        hd_error pre = Some (Called (git_reference_dwim str)) /\
        calls (run h (resolve_refish (STRSXP (str :: rest))) w) =
          (pre ++ calls (run h (resolve_refish_revparse str) w'))%list /\
        hd_error (calls (run h (resolve_refish_revparse str) w')) =
          Some (Called (git_revparse_single str)) /\
        result (run h (resolve_refish (STRSXP (str :: rest))) w) =
          result (run h (resolve_refish_revparse str) w')).
Proof.
  intros str rest w. split.
  - intros ref w1 obj w2 Hd Hp.
    rewrite (resolve_refish_fast str rest w ref w1 obj w2 Hd Hp). simpl. auto.
  - intros w' Hfail.
    destruct (resolve_refish_falls_through str rest w w' Hfail)
      as (pre & Hq & Hhd & Hrun).
    exists pre. rewrite Hrun. simpl.
    split; [exact Hq |]. split; [exact Hhd |]. split; [reflexivity |].
    split; [apply revparse_starts | reflexivity].
Qed.

(** C2.  When the name lookup yields no object, the revision lookup finds an
    object that is not a commit and that object cannot be peeled to a commit,
    [resolve_refish] returns nothing: it raises the error whose message names
    the type of the object found and the expression, and both can be read
    back from the message. *)
Theorem resolve_refish_wrong_kind : forall str rest w w1 obj w2 n w3,
  fast_path_fails h str w w1 ->
  h _ (git_revparse_single str) w1 = (GitOk obj, w2) ->
  git_object_type obj <> GIT_OBJECT_COMMIT ->
  h _ (git_object_peel obj GIT_OBJECT_COMMIT) w2 = (GitErr n, w3) ->
  result (run h (resolve_refish (STRSXP (str :: rest))) w) =
    Fails (Rf_error (wrong_kind_message (git_object_type obj) str)) /\
  (forall t s,
      wrong_kind_message t s = wrong_kind_message (git_object_type obj) str ->
      t = git_object_type obj /\ s = str).
Proof.
  intros str rest w w1 obj w2 n w3 Hfail Hr Hty Hp. split.
  - destruct (resolve_refish_falls_through str rest w w1 Hfail)
      as (pre & _ & _ & Hrun).
    rewrite Hrun. simpl. eapply revparse_wrong_kind; eassumption.
  - intros t s. apply wrong_kind_message_inj.
Qed.

(** C3.  When the name lookup yields no object and [git_revparse_single]
    fails as well, [resolve_refish] returns nothing: it raises the error
    whose message is "Failed to find git reference" followed by the
    expression in quotes, and the expression can be read back from it. *)
Theorem resolve_refish_not_found : forall str rest w w1 n w2,
  fast_path_fails h str w w1 ->
  h _ (git_revparse_single str) w1 = (GitErr n, w2) ->
  result (run h (resolve_refish (STRSXP (str :: rest))) w) =
    Fails (Rf_error (not_found_message str)) /\
  final (run h (resolve_refish (STRSXP (str :: rest))) w) = w2 /\
  (forall s, not_found_message s = not_found_message str -> s = str).
Proof.
  intros str rest w w1 n w2 Hfail Hr.
  destruct (resolve_refish_falls_through str rest w w1 Hfail)
    as (pre & _ & _ & Hrun).
  rewrite Hrun, (revparse_not_found _ _ _ _ Hr). simpl.
  repeat split. intros s. apply not_found_message_inj.
Qed.

(** C5, as the code has it.  When the name lookup yields no object and the
    revision lookup ends on a tree, as it does for a commit followed by the
    suffix that asks for its tree, and a tree cannot be peeled to a commit,
    [resolve_refish] returns no object: it raises "Reference is a tree and
    does not point to a commit" followed by the expression. *)
Theorem resolve_refish_tree_rejected : forall str rest w w1 obj w2 n w3,
  fast_path_fails h str w w1 ->
  h _ (git_revparse_single str) w1 = (GitOk obj, w2) ->
  git_object_type obj = GIT_OBJECT_TREE ->
  h _ (git_object_peel obj GIT_OBJECT_COMMIT) w2 = (GitErr n, w3) ->
  result (run h (resolve_refish (STRSXP (str :: rest))) w) =
    Fails (Rf_error
             ("Reference is a tree and does not point to a commit: " ++ str)).
Proof.
  intros str rest w w1 obj w2 n w3 Hfail Hr Hty Hp.
  destruct (resolve_refish_falls_through str rest w w1 Hfail)
    as (pre & _ & _ & Hrun).
  rewrite Hrun. cbn [result].
  rewrite (revparse_wrong_kind str w1 obj w2 n w3 Hr); [| congruence | exact Hp].
  rewrite Hty. reflexivity.
Qed.

(** C7, as the code has it.  For the empty expression, when the name lookup
    yields no object and [git_revparse_single] fails, whatever its error
    code, [resolve_refish] returns no object and raises the same error as for
    a name that is not found: "Failed to find git reference ''". *)
Theorem resolve_refish_empty_expression : forall rest w w1 n w2,
  fast_path_fails h "" w w1 ->
  h _ (git_revparse_single "") w1 = (GitErr n, w2) ->
  result (run h (resolve_refish (STRSXP ("" :: rest))) w) =
    Fails (Rf_error "Failed to find git reference ''") /\
  Rf_error "Failed to find git reference ''" = Rf_error (not_found_message "").
Proof.
  intros rest w w1 n w2 Hfail Hr.
  destruct (resolve_refish_falls_through "" rest w w1 Hfail)
    as (pre & _ & _ & Hrun).
  rewrite Hrun, (revparse_not_found _ _ _ _ Hr). simpl. split; reflexivity.
Qed.

(** C8.  Provided libgit2 peels to a commit as documented, an object that
    [resolve_refish] returns has type commit, and it is the commit that the
    found reference peeled to, or the commit that the revision lookup found,
    or the commit that the object found by the revision lookup peeled to. *)
Theorem resolve_refish_returns_commit :
  peels_to_commit h ->
  forall x w obj,
    result (run h (resolve_refish x) w) = Returns obj ->
    git_object_type obj = GIT_OBJECT_COMMIT /\
    ((exists ref w1 w2,
         h _ (git_reference_dwim (STRING_ELT0 x)) w = (GitOk ref, w1) /\
         h _ (git_reference_peel ref GIT_OBJECT_COMMIT) w1 = (GitOk obj, w2)) \/
     (exists w' w1,
         fast_path_fails h (STRING_ELT0 x) w w' /\
         h _ (git_revparse_single (STRING_ELT0 x)) w' = (GitOk obj, w1) /\
         git_object_type obj = GIT_OBJECT_COMMIT) \/
     (exists w' found w1 w2,
         fast_path_fails h (STRING_ELT0 x) w w' /\
         h _ (git_revparse_single (STRING_ELT0 x)) w' = (GitOk found, w1) /\
         git_object_type found <> GIT_OBJECT_COMMIT /\
         h _ (git_object_peel found GIT_OBJECT_COMMIT) w1 = (GitOk obj, w2))).
Proof.
  intros [Href Hobj] x w obj Hret.
  destruct (Rf_isString x) eqn:Hs;
    [| rewrite resolve_refish_refuses in Hret by auto; discriminate].
  destruct (Nat.eq_dec (Rf_length x) 0) as [Hl | Hl];
    [rewrite resolve_refish_refuses in Hret by auto; discriminate |].
  destruct (resolve_refish_accepts x Hs Hl) as [rest Hx].
  set (str := STRING_ELT0 x) in *. rewrite Hx in Hret. clearbody str.
  destruct (fast_path_decides str w)
    as [(ref & w1 & o & w2 & Hd & Hp) | [w' Hfail]].
  - rewrite (resolve_refish_fast str rest w ref w1 o w2 Hd Hp) in Hret.
    simpl in Hret. injection Hret as ->. split; [eauto |].
    left. exists ref, w1, w2. auto.
  - destruct (resolve_refish_falls_through str rest w w' Hfail)
      as (pre & _ & _ & Hrun).
    rewrite Hrun in Hret. cbn [result] in Hret.
    destruct (revparse_returns str w' obj Hret)
      as [(w1 & Hr & Hty) | (found & w1 & w2 & Hr & Hty & Hp)].
    + split; [exact Hty |]. right; left. exists w', w1. auto.
    + split; [eauto |]. right; right. exists w', found, w1, w2. auto.
Qed.

(** [bail_if] returns on 0 and does not return on anything else. *)
Lemma bail_if_zero : forall what, bail_if 0 what = Ret tt.
Proof. reflexivity. Qed.

Lemma bail_if_raises : forall A n what (k : unit -> prog A) w,
  exists e, result (run h (bind (bail_if (Z.neg n) what) k) w) = Fails e.
Proof.
  intros A n what k w. unfold bail_if, perform. simpl.
  destruct (h _ giterr_last w) as [[i |] w1]; simpl;
    match goal with
    | |- context [h _ (raise_libgit2_error ?a ?b ?c ?d) w1] =>
        destruct (h _ (raise_libgit2_error a b c d) w1) as [[] w2]
    end; simpl; eauto.
Qed.

(** C9.  Provided [git_commit_lookup] finds commits by their id as
    documented: when [resolve_refish] raises an error, [ref_to_commit] raises
    the same error; when [resolve_refish] returns an object and the lookup of
    its id succeeds, [ref_to_commit] returns the commit found, whose id is the
    id of that object; and when that lookup fails, [ref_to_commit] raises an
    error. *)
Theorem ref_to_commit_same_id :
  lookup_by_id h ->
  forall x w,
    (forall e,
        result (run h (resolve_refish x) w) = Fails e ->
        result (run h (ref_to_commit x) w) = Fails e) /\
    (forall revision,
        result (run h (resolve_refish x) w) = Returns revision ->
        (forall c w',
            h _ (git_commit_lookup (git_object_id revision))
              (final (run h (resolve_refish x) w)) = (GitOk c, w') ->
            result (run h (ref_to_commit x) w) = Returns (Some c) /\
            git_commit_id c = git_object_id revision) /\
        (forall n w',
            h _ (git_commit_lookup (git_object_id revision))
              (final (run h (resolve_refish x) w)) = (GitErr n, w') ->
            exists e, result (run h (ref_to_commit x) w) = Fails e)).
Proof.
  intros Hid x w. unfold ref_to_commit. rewrite run_bind.
  split.
  - intros e He. rewrite He. reflexivity.
  - intros revision Hrev. rewrite Hrev. cbn [result].
    set (w1 := final (run h (resolve_refish x) w)).
    split.
    + intros c w' Hc. split; [| exact (Hid _ _ _ _ Hc)].
      unfold perform. simpl. rewrite Hc. simpl.
      destruct (h _ (git_object_free revision) w'). reflexivity.
    + intros n w' Hc. unfold perform. simpl. rewrite Hc.
      cbn [after result git_code].
      apply bail_if_raises.
Qed.

(** C10.  Two character vectors with the same first element run alike, from
    any state: same result, same final state, same calls.  A value that is
    not a character vector, or one of length zero, raises "Reference is not a
    string" without a single call, leaving the state as it was. *)
Theorem resolve_refish_first_element :
  (forall str rest1 rest2 w,
      run h (resolve_refish (STRSXP (str :: rest1))) w =
      run h (resolve_refish (STRSXP (str :: rest2))) w) /\
  (forall x w,
      Rf_isString x = false \/ Rf_length x = 0 ->
      run h (resolve_refish x) w =
      {| result := Fails (Rf_error "Reference is not a string");
         final := w;
         calls := [] |}).
Proof.
  split.
  - intros str rest1 rest2 w. rewrite !resolve_refish_string. reflexivity.
  - intros x w Hx. rewrite (resolve_refish_refuses x Hx). reflexivity.
Qed.

End Resolution.

(** ** The peeling engine *)

Lemma peel_within_commit : forall repo depth obj peeled,
  Spec.peel_within repo depth obj GIT_OBJECT_COMMIT = Spec.Ok peeled ->
  git_object_type peeled = GIT_OBJECT_COMMIT.
Proof.
  intros repo depth.
  induction depth as [| depth IH]; intros obj peeled H; simpl in H;
    destruct (git_object_t_eqb (git_object_type obj) GIT_OBJECT_COMMIT) eqn:E;
    try (injection H as <-; now apply git_object_t_eqb_eq);
    destruct obj as [c | id | id | id pointee]; try discriminate.
  destruct (Spec.lookup repo pointee) as [obj' |]; [| discriminate].
  exact (IH obj' peeled H).
Qed.

Lemma peel_within_same_kind : forall repo depth obj target,
  git_object_type obj = target ->
  Spec.peel_within repo depth obj target = Spec.Ok obj.
Proof.
  intros repo depth obj target H.
  apply git_object_t_eqb_eq in H.
  destruct depth; simpl; rewrite H; reflexivity.
Qed.

(** C6.  Peeling to a commit is idempotent: when [peel obj Commit] succeeds
    with [peeled], peeling [peeled] to a commit again gives [peeled], which is
    what peeling [obj] gave. *)
Theorem peel_commit_idempotent : forall repo obj peeled,
  Spec.peel repo obj GIT_OBJECT_COMMIT = Spec.Ok peeled ->
  Spec.peel repo peeled GIT_OBJECT_COMMIT = Spec.Ok peeled /\
  Spec.peel repo peeled GIT_OBJECT_COMMIT = Spec.peel repo obj GIT_OBJECT_COMMIT.
Proof.
  intros repo obj peeled H.
  assert (Hsame : Spec.peel repo peeled GIT_OBJECT_COMMIT = Spec.Ok peeled).
  { unfold Spec.peel in *. apply peel_within_same_kind.
    exact (peel_within_commit _ _ _ _ H). }
  split; [exact Hsame | now rewrite H].
Qed.

(** ** The handler over the repository model keeps libgit2's contracts *)

Lemma answer_ok : forall A (r : Spec.res A) w a w',
  Spec.answer r w = (GitOk a, w') -> r = Spec.Ok a.
Proof.
  intros A [b | e] w a w' H; simpl in H; [injection H as -> _ | discriminate].
  reflexivity.
Qed.

Lemma answer_snapshot : forall A (r : Spec.res A) w,
  Spec.snapshot (snd (Spec.answer r w)) = Spec.snapshot w.
Proof. intros A [a | e] w; reflexivity. Qed.

Lemma answer_fst : forall A (r : Spec.res A) w1 w2,
  fst (Spec.answer r w1) = fst (Spec.answer r w2).
Proof. intros A [a | e] w1 w2; reflexivity. Qed.

Lemma libgit2_peels_to_commit : peels_to_commit Spec.libgit2.
Proof.
  split.
  - intros ref w obj w' H. simpl in H. apply answer_ok in H.
    unfold Spec.peel_reference in H.
    destruct (Spec.reference_object (Spec.snapshot w) ref); [| discriminate].
    exact (peel_within_commit _ _ _ _ H).
  - intros o w obj w' H. simpl in H. apply answer_ok in H.
    exact (peel_within_commit _ _ _ _ H).
Qed.

Lemma libgit2_lookup_by_id : lookup_by_id Spec.libgit2.
Proof.
  intros id w c w' H. simpl in H. apply answer_ok in H.
  unfold Spec.commit_of, Spec.lookup in H.
  destruct (find _ _) as [[c' | | |] |] eqn:F; try discriminate.
  injection H as ->. apply find_some in F. destruct F as [_ F].
  now apply String.eqb_eq in F.
Qed.

Lemma libgit2_keeps_snapshot : forall X (c : call X) w,
  Spec.snapshot (snd (Spec.libgit2 X c w)) = Spec.snapshot w.
Proof.
  intros X c w. destruct c; simpl; try reflexivity; apply answer_snapshot.
Qed.

Lemma libgit2_reads_snapshot : forall X (c : call X) w1 w2,
  reads_repository c = true -> Spec.snapshot w1 = Spec.snapshot w2 ->
  fst (Spec.libgit2 X c w1) = fst (Spec.libgit2 X c w2).
Proof.
  intros X c w1 w2 Hc Hw.
  destruct c; simpl in *; try discriminate; try reflexivity;
    rewrite Hw; apply answer_fst.
Qed.

(** ** The theorems at work on the sample repository *)

Import Spec.

(** The branch named [main~1] wins over the first parent of [main]; [HEAD^]
    names no reference and goes through the revision lookup. *)
Lemma resolve_refish_name_first_witness :
  libgit2 _ (git_reference_dwim "main~1") (fresh sample) =
    (GitOk (mk_reference "refs/heads/main~1" (Direct "d00d42")), fresh sample) /\
  result (run libgit2 (resolve_refish (STRSXP ["main~1"])) (fresh sample)) =
    Returns (ObjCommit c_side) /\
  revparse sample "main~1" = Ok (ObjCommit c_root) /\
  fast_path_fails libgit2 "HEAD^" (fresh sample) (failed sample NotFound) /\
  result (run libgit2 (resolve_refish (STRSXP ["HEAD^"])) (fresh sample)) =
    result (run libgit2 (resolve_refish_revparse "HEAD^")
              (failed sample NotFound)).
Proof.
  assert (Hfail : fast_path_fails libgit2 "HEAD^" (fresh sample)
                    (failed sample NotFound))
    by (left; exists 3%positive; reflexivity).
  destruct (resolve_refish_name_first world libgit2 "main~1" []
              (fresh sample)) as [Hfast _].
  destruct (Hfast _ _ _ _ eq_refl eq_refl) as (Hres & _ & _).
  destruct (resolve_refish_name_first world libgit2 "HEAD^" []
              (fresh sample)) as [_ Hslow].
  destruct (Hslow _ Hfail) as (pre & _ & _ & _ & _ & Hres').
  repeat split; try reflexivity; assumption.
Defined.

Lemma snapshot_fast_path_fails :
  fast_path_fails libgit2 "snapshot" (fresh sample) (failed sample PeelError).
Proof.
  right.
  exists (mk_reference "refs/tags/snapshot" (Direct "7a0003")),
         (fresh sample), 19%positive.
  split; reflexivity.
Defined.

Lemma resolve_refish_wrong_kind_witness :
  fast_path_fails libgit2 "snapshot" (fresh sample) (failed sample PeelError) /\
  libgit2 _ (git_revparse_single "snapshot") (failed sample PeelError) =
    (GitOk (ObjTag "7a0003" "7e0001"), failed sample PeelError) /\
  result (run libgit2 (resolve_refish (STRSXP ["snapshot"])) (fresh sample)) =
    Fails (Rf_error "Reference is a tag and does not point to a commit: snapshot").
Proof.
  split; [exact snapshot_fast_path_fails |]. split; [reflexivity |].
  apply (resolve_refish_wrong_kind world libgit2 "snapshot" [] (fresh sample)
           (failed sample PeelError) (ObjTag "7a0003" "7e0001")
           (failed sample PeelError) 19%positive (failed sample PeelError)).
  - exact snapshot_fast_path_fails.
  - reflexivity.
  - discriminate.
  - reflexivity.
Defined.

Lemma resolve_refish_not_found_witness :
  fast_path_fails libgit2 "nothing" (fresh sample) (failed sample NotFound) /\
  result (run libgit2 (resolve_refish (STRSXP ["nothing"])) (fresh sample)) =
    Fails (Rf_error "Failed to find git reference 'nothing'").
Proof.
  assert (Hfail : fast_path_fails libgit2 "nothing" (fresh sample)
                    (failed sample NotFound))
    by (left; exists 3%positive; reflexivity).
  split; [exact Hfail |].
  apply (resolve_refish_not_found world libgit2 "nothing" [] (fresh sample)
           (failed sample NotFound) 3%positive (failed sample NotFound) Hfail).
  reflexivity.
Defined.

Lemma resolve_refish_tree_rejected_witness :
  fast_path_fails libgit2 "abc1234^{tree}" (fresh sample)
    (failed sample NotFound) /\
  libgit2 _ (git_revparse_single "abc1234^{tree}") (failed sample NotFound) =
    (GitOk (ObjTree "7e0002"), failed sample NotFound) /\
  result (run libgit2 (resolve_refish (STRSXP ["abc1234^{tree}"]))
            (fresh sample)) =
    Fails (Rf_error
             "Reference is a tree and does not point to a commit: abc1234^{tree}").
Proof.
  assert (Hfail : fast_path_fails libgit2 "abc1234^{tree}" (fresh sample)
                    (failed sample NotFound))
    by (left; exists 3%positive; reflexivity).
  split; [exact Hfail |]. split; [reflexivity |].
  apply (resolve_refish_tree_rejected world libgit2 "abc1234^{tree}" []
           (fresh sample) (failed sample NotFound) (ObjTree "7e0002")
           (failed sample NotFound) 19%positive (failed sample PeelError) Hfail);
    reflexivity.
Defined.

(** A tag of a tag of a commit. *)
Lemma peel_commit_idempotent_witness :
  peel sample (ObjTag "7a0002" "7a0001") GIT_OBJECT_COMMIT =
    Ok (ObjCommit c_main) /\
  peel sample (ObjCommit c_main) GIT_OBJECT_COMMIT = Ok (ObjCommit c_main).
Proof.
  split; [reflexivity |].
  apply (peel_commit_idempotent sample (ObjTag "7a0002" "7a0001")
           (ObjCommit c_main)).
  reflexivity.
Defined.

Lemma resolve_refish_empty_expression_witness :
  fast_path_fails libgit2 "" (fresh sample) (failed sample NotFound) /\
  libgit2 _ (git_revparse_single "") (failed sample NotFound) =
    (GitErr 12%positive, failed sample ParseError) /\
  result (run libgit2 (resolve_refish (STRSXP [""])) (fresh sample)) =
    Fails (Rf_error "Failed to find git reference ''").
Proof.
  assert (Hfail : fast_path_fails libgit2 "" (fresh sample)
                    (failed sample NotFound))
    by (left; exists 3%positive; reflexivity).
  split; [exact Hfail |]. split; [reflexivity |].
  apply (resolve_refish_empty_expression world libgit2 [] (fresh sample)
           (failed sample NotFound) 12%positive (failed sample ParseError) Hfail).
  reflexivity.
Defined.

(** The tag [v1] is a tag of a tag of the commit on [main]. *)
Lemma resolve_refish_returns_commit_witness :
  result (run libgit2 (resolve_refish (STRSXP ["v1"])) (fresh sample)) =
    Returns (ObjCommit c_main) /\
  git_object_type (ObjCommit c_main) = GIT_OBJECT_COMMIT.
Proof.
  split; [reflexivity |].
  apply (resolve_refish_returns_commit world libgit2 libgit2_peels_to_commit
           (STRSXP ["v1"]) (fresh sample) (ObjCommit c_main)).
  reflexivity.
Defined.

Lemma ref_to_commit_same_id_witness :
  result (run libgit2 (resolve_refish (STRSXP ["v1"; "ignored"]))
            (fresh sample)) = Returns (ObjCommit c_main) /\
  result (run libgit2 (ref_to_commit (STRSXP ["v1"; "ignored"]))
            (fresh sample)) = Returns (Some c_main) /\
  git_commit_id c_main = "abc1234" /\
  result (run libgit2 (ref_to_commit (STRSXP ["b10b01"])) (fresh sample)) =
    Fails (Rf_error "Reference is a blob and does not point to a commit: b10b01").
Proof.
  destruct (ref_to_commit_same_id world libgit2 libgit2_lookup_by_id
              (STRSXP ["v1"; "ignored"]) (fresh sample)) as [_ Hok].
  destruct (Hok (ObjCommit c_main) eq_refl) as [Hfound _].
  destruct (Hfound c_main (fresh sample) eq_refl) as [Hres Hid].
  destruct (ref_to_commit_same_id world libgit2 libgit2_lookup_by_id
              (STRSXP ["b10b01"]) (fresh sample)) as [Herr _].
  split; [reflexivity |]. split; [exact Hres |]. split; [exact Hid |].
  apply Herr. reflexivity.
Defined.

Lemma resolve_refish_first_element_witness :
  Rf_isString (INTSXP [1%Z]) = false /\
  run libgit2 (resolve_refish (INTSXP [1%Z])) (fresh sample) =
    {| result := Fails (Rf_error "Reference is not a string");
       final := fresh sample; calls := [] |} /\
  Rf_length (STRSXP []) = 0 /\
  run libgit2 (resolve_refish (STRSXP [])) (fresh sample) =
    {| result := Fails (Rf_error "Reference is not a string");
       final := fresh sample; calls := [] |} /\
  run libgit2 (resolve_refish (STRSXP ["main"; "HEAD^"])) (fresh sample) =
    run libgit2 (resolve_refish (STRSXP ["main"])) (fresh sample).
Proof.
  destruct (resolve_refish_first_element world libgit2) as [Hfirst Hrefuse].
  split; [reflexivity |].
  split; [apply Hrefuse; left; reflexivity |].
  split; [reflexivity |].
  split; [apply Hrefuse; right; reflexivity |].
  apply Hfirst.
Defined.

(** ** Where the code departs from the specification *)

(** C5 fails: [abc1234] names the commit on [main] and nothing else,
    [abc1234^{tree}] designates that commit's root tree, and yet
    [resolve_refish] does not return the tree: it raises an error. *)
Lemma resolve_refish_tree_suffix_counterexample :
  lookup_prefix sample "abc1234" = PrefixFound (ObjCommit c_main) /\
  lookup sample (git_commit_tree_id c_main) = Some (ObjTree "7e0002") /\
  revparse sample "abc1234^{tree}" = Ok (ObjTree "7e0002") /\
  result (run libgit2 (resolve_refish (STRSXP ["abc1234^{tree}"]))
            (fresh sample)) <> Returns (ObjTree "7e0002") /\
  result (run libgit2 (resolve_refish (STRSXP ["abc1234^{tree}"]))
            (fresh sample)) =
    Fails (Rf_error
             "Reference is a tree and does not point to a commit: abc1234^{tree}").
Proof.
  repeat split; try reflexivity. discriminate.
Qed.

(** C7 fails: the empty expression is a parse error for the revision lookup,
    and [resolve_refish] reports it with the message it has for a name that
    is not found. *)
Lemma resolve_refish_empty_counterexample :
  parse "" = Error ParseError /\
  revparse sample "" = Error ParseError /\
  revparse sample "nothing" = Error NotFound /\
  result (run libgit2 (resolve_refish (STRSXP [""])) (fresh sample)) =
    Fails (Rf_error (not_found_message "")) /\
  result (run libgit2 (resolve_refish (STRSXP ["nothing"])) (fresh sample)) =
    Fails (Rf_error (not_found_message "nothing")).
Proof.
  repeat split; reflexivity.
Qed.

(** * Further properties of utils.c *)

(** ** bail_if and bail_if_null *)

Section Bailing.

Variable W : Type.
Variable h : handler W.

(** The message and the class that [bail_if] hands to R. *)
Lemma bail_if_run : forall err what w info w1 r w2,
  err <> 0%Z ->
  h _ giterr_last w = (info, w1) ->
  h _ (raise_libgit2_error err
         match info with Some i => message i | None => "Unknown error message" end
         what (option_map klass info)) w1 = (r, w2) ->
  run h (bail_if err what) w =
  {| result :=
       Fails match r with
             | Jumped =>
                 gert_error err
                   match info with
                   | Some i => message i
                   | None => "Unknown error message"
                   end what (option_map klass info)
             | Returned =>
                 match info with
                 | Some i =>
                     Rf_error ("Failed to raise gert S3 error (" ++ message i ++ ")")
                 | None => null_dereference
                 end
             end;
     final := w2;
     calls :=
       [Called giterr_last;
        Called (raise_libgit2_error err
                  match info with
                  | Some i => message i
                  | None => "Unknown error message"
                  end what (option_map klass info))] |}.
Proof.
  intros err what w info w1 r w2 Herr Hi Hr.
  unfold bail_if, perform. apply Z.eqb_neq in Herr. rewrite Herr. simpl.
  rewrite Hi. simpl. rewrite Hr. destruct r, info; reflexivity.
Qed.

(** X1.  [bail_if] returns exactly on the code 0, and then without a call
    and without touching the state; on any other code it first reads
    libgit2's last error and never returns, whatever that read yields and
    whether or not the R function signals its condition. *)
Theorem bail_if_returns_on_zero_only : forall err what w,
  (err = 0%Z ->
   run h (bail_if err what) w =
   {| result := Returns tt; final := w; calls := [] |}) /\
  (err <> 0%Z ->
   (exists e, result (run h (bail_if err what) w) = Fails e) /\
   hd_error (calls (run h (bail_if err what) w)) = Some (Called giterr_last) /\
   length (calls (run h (bail_if err what) w)) = 2).
Proof.
  intros err what w. split.
  - intros ->. reflexivity.
  - intros Herr.
    destruct (h _ giterr_last w) as [info w1] eqn:Hi.
    destruct (h _ (raise_libgit2_error err
                     match info with
                     | Some i => message i
                     | None => "Unknown error message"
                     end what (option_map klass info)) w1) as [r w2] eqn:Hr.
    rewrite (bail_if_run err what w info w1 r w2 Herr Hi Hr). simpl.
    split; [eexists; reflexivity | split; reflexivity].
Qed.

(** X2.  When the R function [raise_libgit2_error] signals, the condition
    carries the code given to [bail_if], the text of libgit2's last error,
    the place [what] and the class of that error; without a last error the
    text is "Unknown error message" and the class is missing. *)
Theorem bail_if_condition : forall err what w info w1 w2,
  err <> 0%Z ->
  h _ giterr_last w = (info, w1) ->
  h _ (raise_libgit2_error err
         match info with Some i => message i | None => "Unknown error message" end
         what (option_map klass info)) w1 = (Jumped, w2) ->
  result (run h (bail_if err what) w) =
  Fails match info with
        | Some i => gert_error err (message i) what (Some (klass i))
        | None => gert_error err "Unknown error message" what None
        end.
Proof.
  intros err what w info w1 w2 Herr Hi Hr.
  rewrite (bail_if_run err what w info w1 Jumped w2 Herr Hi Hr).
  destruct info; reflexivity.
Qed.

(** X3.  [bail_if_null] returns exactly on a pointer that is not [NULL], and
    then without a call; on [NULL] it never returns, and the condition that
    the R function signals carries the code -1 and the place [what]. *)
Theorem bail_if_null_returns_on_pointer_only :
  forall (A : Type) (ptr : option A) what w,
  (ptr <> None ->
   run h (bail_if_null ptr what) w =
   {| result := Returns tt; final := w; calls := [] |}) /\
  (ptr = None ->
   (exists e, result (run h (bail_if_null ptr what) w) = Fails e) /\
   forall info w1 w2,
     h _ giterr_last w = (info, w1) ->
     h _ (raise_libgit2_error (-1)
            match info with Some i => message i | None => "Unknown error message" end
            what (option_map klass info)) w1 = (Jumped, w2) ->
     result (run h (bail_if_null ptr what) w) =
     Fails (gert_error (-1)
              match info with
              | Some i => message i
              | None => "Unknown error message"
              end what (option_map klass info))).
Proof.
  intros A ptr what w. split.
  - destruct ptr as [a |]; [reflexivity | contradiction].
  - intros ->. unfold bail_if_null. split.
    + destruct (h _ giterr_last w) as [info w1] eqn:Hi.
      destruct (h _ (raise_libgit2_error (-1)
                       match info with
                       | Some i => message i
                       | None => "Unknown error message"
                       end what (option_map klass info)) w1) as [r w2] eqn:Hr.
      rewrite (bail_if_run (-1) what w info w1 r w2 ltac:(discriminate) Hi Hr).
      eexists; reflexivity.
    + intros info w1 w2 Hi Hr.
      rewrite (bail_if_run (-1) what w info w1 Jumped w2 ltac:(discriminate) Hi Hr).
      reflexivity.
Qed.

End Bailing.

(** ** What resolve_refish and ref_to_commit release *)

Section Releases.

Variable W : Type.
Variable h : handler W.

(** The four ways through lines 46 to 59. *)
Lemma revparse_cases : forall str w,
  (exists n w1,
      h _ (git_revparse_single str) w = (GitErr n, w1) /\
      run h (resolve_refish_revparse str) w =
      {| result := Fails (Rf_error (not_found_message str)); final := w1;
         calls := [Called (git_revparse_single str)] |}) \/
  (exists found w1,
      h _ (git_revparse_single str) w = (GitOk found, w1) /\
      git_object_type found = GIT_OBJECT_COMMIT /\
      run h (resolve_refish_revparse str) w =
      {| result := Returns found; final := w1;
         calls := [Called (git_revparse_single str)] |}) \/
  (exists found w1 peeled w2,
      h _ (git_revparse_single str) w = (GitOk found, w1) /\
      git_object_type found <> GIT_OBJECT_COMMIT /\
      h _ (git_object_peel found GIT_OBJECT_COMMIT) w1 = (GitOk peeled, w2) /\
      run h (resolve_refish_revparse str) w =
      {| result := Returns peeled;
         final := snd (h _ (git_object_free found) w2);
         calls := [Called (git_revparse_single str);
                   Called (git_object_peel found GIT_OBJECT_COMMIT);
                   Called (git_object_free found)] |}) \/
  (exists found w1 n w2,
      h _ (git_revparse_single str) w = (GitOk found, w1) /\
      git_object_type found <> GIT_OBJECT_COMMIT /\
      h _ (git_object_peel found GIT_OBJECT_COMMIT) w1 = (GitErr n, w2) /\
      run h (resolve_refish_revparse str) w =
      {| result :=
           Fails (Rf_error (wrong_kind_message (git_object_type found) str));
         final := snd (h _ (git_object_free found) w2);
         calls := [Called (git_revparse_single str);
                   Called (git_object_peel found GIT_OBJECT_COMMIT);
                   Called (git_object_free found)] |}).
Proof.
  intros str w. unfold resolve_refish_revparse, perform. simpl.
  destruct (h _ (git_revparse_single str) w) as [[found | n] w1] eqn:Hr.
  2: { left. exists n, w1. split; reflexivity. }
  right. simpl.
  destruct (git_object_t_eqb (git_object_type found) GIT_OBJECT_COMMIT) eqn:E.
  - left. exists found, w1. apply git_object_t_eqb_eq in E. auto.
  - right.
    assert (Hty : git_object_type found <> GIT_OBJECT_COMMIT).
    { intros Hty. apply git_object_t_eqb_eq in Hty. congruence. }
    simpl.
    destruct (h _ (git_object_peel found GIT_OBJECT_COMMIT) w1)
      as [[peeled | n] w2] eqn:Hp; simpl;
      destruct (h _ (git_object_free found) w2) as [[] w3] eqn:Hf.
    + left. exists found, w1, peeled, w2.
      split; [reflexivity |]. split; [exact Hty |]. split; [exact Hp |].
      rewrite Hf. reflexivity.
    + right. exists found, w1, n, w2.
      split; [reflexivity |]. split; [exact Hty |]. split; [exact Hp |].
      rewrite Hf. reflexivity.
Qed.

(** The calls before line 46 when the name lookup yields no object. *)
Lemma resolve_refish_falls_through_calls : forall str rest w w',
  fast_path_fails h str w w' ->
  exists pre,
    (pre = [Called (git_reference_dwim str)] \/
     exists ref, pre = [Called (git_reference_dwim str);
                        Called (git_reference_peel ref GIT_OBJECT_COMMIT)]) /\
    run h (resolve_refish (STRSXP (str :: rest))) w =
    {| result := result (run h (resolve_refish_revparse str) w');
       final := final (run h (resolve_refish_revparse str) w');
       calls := pre ++ calls (run h (resolve_refish_revparse str) w') |}.
Proof.
  intros str rest w w' [[n Hd] | (ref & w1 & n & Hd & Hp)];
    rewrite resolve_refish_string.
  - exists [Called (git_reference_dwim str)]. split; [auto |].
    rewrite (run_call W h _ _ _ _ _ _ _ Hd). reflexivity.
  - exists [Called (git_reference_dwim str);
            Called (git_reference_peel ref GIT_OBJECT_COMMIT)].
    split; [eauto |].
    rewrite (run_call W h _ _ _ _ _ _ _ Hd), (run_call W h _ _ _ _ _ _ _ Hp).
    reflexivity.
Qed.

(** Every run of [resolve_refish] is a refusal, a successful name lookup, or a
    failed name lookup followed by the revision lookup. *)
Lemma resolve_refish_cases : forall x w,
  run h (resolve_refish x) w =
    {| result := Fails (Rf_error "Reference is not a string");
       final := w; calls := [] |} \/
  (exists ref w1 obj w2,
      h _ (git_reference_dwim (STRING_ELT0 x)) w = (GitOk ref, w1) /\
      h _ (git_reference_peel ref GIT_OBJECT_COMMIT) w1 = (GitOk obj, w2) /\
      run h (resolve_refish x) w =
      {| result := Returns obj;
         final := snd (h _ (git_reference_free ref) w2);
         calls := [Called (git_reference_dwim (STRING_ELT0 x));
                   Called (git_reference_peel ref GIT_OBJECT_COMMIT);
                   Called (git_reference_free ref)] |}) \/
  (exists w' pre,
      fast_path_fails h (STRING_ELT0 x) w w' /\
      (pre = [Called (git_reference_dwim (STRING_ELT0 x))] \/
       exists ref, pre = [Called (git_reference_dwim (STRING_ELT0 x));
                          Called (git_reference_peel ref GIT_OBJECT_COMMIT)]) /\
      run h (resolve_refish x) w =
      {| result := result (run h (resolve_refish_revparse (STRING_ELT0 x)) w');
         final := final (run h (resolve_refish_revparse (STRING_ELT0 x)) w');
         calls := pre ++
                  calls (run h (resolve_refish_revparse (STRING_ELT0 x)) w') |}).
Proof.
  intros x w.
  destruct (Rf_isString x) eqn:Hs;
    [| left; rewrite resolve_refish_refuses by auto; reflexivity].
  destruct (Nat.eq_dec (Rf_length x) 0) as [Hl | Hl];
    [left; rewrite resolve_refish_refuses by auto; reflexivity |].
  right.
  destruct (resolve_refish_accepts x Hs Hl) as [rest Hx].
  set (str := STRING_ELT0 x) in *. rewrite Hx. clearbody str.
  destruct (fast_path_decides W h str w)
    as [(ref & w1 & obj & w2 & Hd & Hp) | [w' Hfail]].
  - left. exists ref, w1, obj, w2. split; [exact Hd |]. split; [exact Hp |].
    exact (resolve_refish_fast W h str rest w ref w1 obj w2 Hd Hp).
  - right.
    destruct (resolve_refish_falls_through_calls str rest w w' Hfail)
      as (pre & Hpre & Hrun).
    exists w', pre. auto.
Qed.

Lemma freed_objects_app : forall l1 l2,
  freed_objects (l1 ++ l2) = (freed_objects l1 ++ freed_objects l2)%list.
Proof. intros l1 l2. unfold freed_objects. apply flat_map_app. Qed.

Lemma freed_references_app : forall l1 l2,
  freed_references (l1 ++ l2) =
  (freed_references l1 ++ freed_references l2)%list.
Proof. intros l1 l2. unfold freed_references. apply flat_map_app. Qed.

Lemma ref_to_commit_lookup_succeeds : forall x w revision c w1,
  result (run h (resolve_refish x) w) = Returns revision ->
  h _ (git_commit_lookup (git_object_id revision))
    (final (run h (resolve_refish x) w)) = (GitOk c, w1) ->
  run h (ref_to_commit x) w =
  {| result := Returns (Some c);
     final := snd (h _ (git_object_free revision) w1);
     calls := calls (run h (resolve_refish x) w) ++
              [Called (git_commit_lookup (git_object_id revision));
               Called (git_object_free revision)] |}.
Proof.
  intros x w revision c w1 Hrev Hc.
  unfold ref_to_commit. rewrite run_bind, Hrev. cbn [result].
  unfold perform. simpl. rewrite Hc. simpl.
  destruct (h _ (git_object_free revision) w1). reflexivity.
Qed.

Lemma ref_to_commit_lookup_fails : forall x w revision n w1 info w2 r w3,
  result (run h (resolve_refish x) w) = Returns revision ->
  h _ (git_commit_lookup (git_object_id revision))
    (final (run h (resolve_refish x) w)) = (GitErr n, w1) ->
  h _ giterr_last w1 = (info, w2) ->
  h _ (raise_libgit2_error (Z.neg n)
         match info with Some i => message i | None => "Unknown error message" end
         "git_commit_lookup" (option_map klass info)) w2 = (r, w3) ->
  exists e,
    run h (ref_to_commit x) w =
    {| result := Fails e;
       final := w3;
       calls := calls (run h (resolve_refish x) w) ++
                [Called (git_commit_lookup (git_object_id revision));
                 Called giterr_last;
                 Called (raise_libgit2_error (Z.neg n)
                           match info with
                           | Some i => message i
                           | None => "Unknown error message"
                           end "git_commit_lookup" (option_map klass info))] |} /\
    (r = Jumped ->
     e = gert_error (Z.neg n)
           match info with
           | Some i => message i
           | None => "Unknown error message"
           end "git_commit_lookup" (option_map klass info)).
Proof.
  intros x w revision n w1 info w2 r w3 Hrev Hc Hi Hr.
  unfold ref_to_commit. rewrite run_bind, Hrev. cbn [result].
  unfold perform. simpl. rewrite Hc. cbn [git_code].
  rewrite run_bind.
  rewrite (bail_if_run W h (Z.neg n) "git_commit_lookup" w1 info w2 r w3
             ltac:(discriminate) Hi Hr).
  cbn [result final calls after]. eexists. split; [reflexivity |].
  intros ->. reflexivity.
Qed.

(** X4.  When [resolve_refish] has returned an object, the lookup of its id
    fails and the R function signals, the condition that leaves
    [ref_to_commit] carries the error code of [git_commit_lookup], the text
    and class of libgit2's last error, and the place "git_commit_lookup". *)
Theorem ref_to_commit_lookup_error : forall x w revision n w1 info w2 w3,
  result (run h (resolve_refish x) w) = Returns revision ->
  h _ (git_commit_lookup (git_object_id revision))
    (final (run h (resolve_refish x) w)) = (GitErr n, w1) ->
  h _ giterr_last w1 = (info, w2) ->
  h _ (raise_libgit2_error (Z.neg n)
         match info with Some i => message i | None => "Unknown error message" end
         "git_commit_lookup" (option_map klass info)) w2 = (Jumped, w3) ->
  result (run h (ref_to_commit x) w) =
  Fails (gert_error (Z.neg n)
           match info with
           | Some i => message i
           | None => "Unknown error message"
           end "git_commit_lookup" (option_map klass info)).
Proof.
  intros x w revision n w1 info w2 w3 Hrev Hc Hi Hr.
  destruct (ref_to_commit_lookup_fails x w revision n w1 info w2 Jumped w3
              Hrev Hc Hi Hr) as (e & Hrun & He).
  rewrite Hrun, (He eq_refl). reflexivity.
Qed.

(** X5.  [ref_to_commit] releases the object that [resolve_refish] returned
    exactly when the commit lookup succeeds, once, as its last call; when the
    lookup fails it makes no release of its own. *)
Theorem ref_to_commit_revision_release : forall x w revision,
  result (run h (resolve_refish x) w) = Returns revision ->
  (forall c w1,
      h _ (git_commit_lookup (git_object_id revision))
        (final (run h (resolve_refish x) w)) = (GitOk c, w1) ->
      calls (run h (ref_to_commit x) w) =
        (calls (run h (resolve_refish x) w) ++
         [Called (git_commit_lookup (git_object_id revision));
          Called (git_object_free revision)])%list /\
      freed_objects (calls (run h (ref_to_commit x) w)) =
        (freed_objects (calls (run h (resolve_refish x) w)) ++ [revision])%list) /\
  (forall n w1,
      h _ (git_commit_lookup (git_object_id revision))
        (final (run h (resolve_refish x) w)) = (GitErr n, w1) ->
      freed_objects (calls (run h (ref_to_commit x) w)) =
        freed_objects (calls (run h (resolve_refish x) w))).
Proof.
  intros x w revision Hrev. split.
  - intros c w1 Hc.
    rewrite (ref_to_commit_lookup_succeeds x w revision c w1 Hrev Hc).
    cbn [calls]. split; [reflexivity |].
    rewrite freed_objects_app. reflexivity.
  - intros n w1 Hc.
    destruct (h _ giterr_last w1) as [info w2] eqn:Hi.
    destruct (h _ (raise_libgit2_error (Z.neg n)
                     match info with
                     | Some i => message i
                     | None => "Unknown error message"
                     end "git_commit_lookup" (option_map klass info)) w2)
      as [r w3] eqn:Hr.
    destruct (ref_to_commit_lookup_fails x w revision n w1 info w2 r w3
                Hrev Hc Hi Hr) as (e & Hrun & _).
    rewrite Hrun. cbn [calls]. rewrite freed_objects_app. simpl.
    apply app_nil_r.
Qed.

Lemma quiet_prefix_frees : forall str pre,
  (pre = [Called (git_reference_dwim str)] \/
   exists ref, pre = [Called (git_reference_dwim str);
                      Called (git_reference_peel ref GIT_OBJECT_COMMIT)]) ->
  freed_objects pre = [] /\ freed_references pre = [] /\ length pre <= 2 /\
  filter is_revparse pre = [].
Proof.
  intros str pre [-> | [ref ->]]; simpl; repeat split; lia.
Qed.

(** X6.  The object that [git_revparse_single] finds is either handed to the
    caller or released: when it is a commit it is returned and nothing is
    released, and when it is not a commit it is released exactly once,
    whether or not peeling it succeeds. *)
Theorem resolve_refish_found_object : forall str rest w w' found w1,
  fast_path_fails h str w w' ->
  h _ (git_revparse_single str) w' = (GitOk found, w1) ->
  (git_object_type found = GIT_OBJECT_COMMIT ->
   result (run h (resolve_refish (STRSXP (str :: rest))) w) = Returns found /\
   freed_objects (calls (run h (resolve_refish (STRSXP (str :: rest))) w)) = []) /\
  (git_object_type found <> GIT_OBJECT_COMMIT ->
   freed_objects (calls (run h (resolve_refish (STRSXP (str :: rest))) w)) =
   [found]).
Proof.
  intros str rest w w' found w1 Hfail Hr.
  destruct (resolve_refish_falls_through_calls str rest w w' Hfail)
    as (pre & Hpre & Hrun).
  destruct (quiet_prefix_frees str pre Hpre) as (Hfo & _).
  rewrite Hrun. cbn [result calls]. rewrite freed_objects_app, Hfo.
  destruct (revparse_cases str w')
    as [(n & v1 & Hr' & Hrev) |
        [(f & v1 & Hr' & Hty & Hrev) |
         [(f & v1 & p & v2 & Hr' & Hty & Hp & Hrev) |
          (f & v1 & n & v2 & Hr' & Hty & Hp & Hrev)]]];
    rewrite Hr in Hr'; inversion Hr'; subst; rewrite Hrev; simpl;
    split; intros H; try contradiction; auto.
Qed.

(** X7.  No run of [resolve_refish] releases more than one object, whether
    it returns or raises; and provided libgit2 peels to a commit as
    documented, the object that [resolve_refish] returns is not among the
    objects it released. *)
Theorem resolve_refish_returns_live_object :
  (forall x w,
      length (freed_objects (calls (run h (resolve_refish x) w))) <= 1) /\
  (peels_to_commit h ->
   forall x w obj,
     result (run h (resolve_refish x) w) = Returns obj ->
     ~ In obj (freed_objects (calls (run h (resolve_refish x) w)))).
Proof.
  split.
  - intros x w.
    destruct (resolve_refish_cases x w)
      as [Hrun | [(ref & w1 & o & w2 & _ & _ & Hrun) |
                  (w' & pre & _ & Hpre & Hrun)]];
      rewrite Hrun; cbn [calls]; [simpl; lia | simpl; lia |].
    destruct (quiet_prefix_frees _ pre Hpre) as (Hfo & _).
    rewrite freed_objects_app, Hfo.
    destruct (revparse_cases (STRING_ELT0 x) w')
      as [(n & v1 & _ & Hrev) |
          [(f & v1 & _ & _ & Hrev) |
           [(f & v1 & p & v2 & _ & _ & _ & Hrev) |
            (f & v1 & n & v2 & _ & _ & _ & Hrev)]]];
      rewrite Hrev; simpl; lia.
  - intros [_ Hobj] x w obj.
    destruct (resolve_refish_cases x w)
      as [Hrun | [(ref & w1 & o & w2 & _ & _ & Hrun) |
                  (w' & pre & _ & Hpre & Hrun)]];
      rewrite Hrun; cbn [result calls].
    + discriminate.
    + intros _. simpl. tauto.
    + destruct (quiet_prefix_frees _ pre Hpre) as (Hfo & _).
      rewrite freed_objects_app, Hfo.
      destruct (revparse_cases (STRING_ELT0 x) w')
        as [(n & v1 & _ & Hrev) |
            [(f & v1 & _ & Hty & Hrev) |
             [(f & v1 & p & v2 & _ & Hty & Hp & Hrev) |
              (f & v1 & n & v2 & _ & Hty & Hp & Hrev)]]];
        rewrite Hrev; simpl; intros Hret; try discriminate.
      * tauto.
      * injection Hret as <-.
        intros [Heq | []]. apply Hty. rewrite Heq. exact (Hobj _ _ _ _ Hp).
Qed.

(** X8.  The reference that [git_reference_dwim] finds is released exactly
    once when it peels to a commit; when it does not, [resolve_refish] goes on
    to the revision lookup and never releases it. *)
Theorem resolve_refish_reference_release : forall str rest w ref w1,
  h _ (git_reference_dwim str) w = (GitOk ref, w1) ->
  (forall obj w2,
      h _ (git_reference_peel ref GIT_OBJECT_COMMIT) w1 = (GitOk obj, w2) ->
      freed_references
        (calls (run h (resolve_refish (STRSXP (str :: rest))) w)) = [ref]) /\
  (forall n w2,
      h _ (git_reference_peel ref GIT_OBJECT_COMMIT) w1 = (GitErr n, w2) ->
      freed_references
        (calls (run h (resolve_refish (STRSXP (str :: rest))) w)) = []).
Proof.
  intros str rest w ref w1 Hd. split.
  - intros obj w2 Hp.
    rewrite (resolve_refish_fast W h str rest w ref w1 obj w2 Hd Hp).
    reflexivity.
  - intros n w2 Hp.
    assert (Hfail : fast_path_fails h str w w2)
      by (right; exists ref, w1, n; auto).
    destruct (resolve_refish_falls_through_calls str rest w w2 Hfail)
      as (pre & Hpre & Hrun).
    destruct (quiet_prefix_frees str pre Hpre) as (_ & Hfr & _).
    rewrite Hrun. cbn [calls]. rewrite freed_references_app, Hfr.
    destruct (revparse_cases str w2)
      as [(m & v1 & _ & Hrev) |
          [(f & v1 & _ & _ & Hrev) |
           [(f & v1 & p & v2 & _ & _ & _ & Hrev) |
            (f & v1 & m & v2 & _ & _ & _ & Hrev)]]];
      rewrite Hrev; reflexivity.
Qed.

(** X9.  Of the calls [git_reference_dwim], [git_reference_peel],
    [git_reference_free], [git_revparse_single], [git_object_peel] and
    [git_object_free], a run of [resolve_refish] makes at most five, and at
    most one [git_revparse_single]; a run of [ref_to_commit] makes at most
    eight of these together with [git_commit_lookup], [giterr_last] and the
    R call of [raise_libgit2_error].  The accessors [git_object_type],
    [git_object_type2string] and [git_object_id] and the R API are not
    counted. *)
Theorem resolve_refish_call_bound : forall x w,
  length (calls (run h (resolve_refish x) w)) <= 5 /\
  length (filter is_revparse (calls (run h (resolve_refish x) w))) <= 1 /\
  length (calls (run h (ref_to_commit x) w)) <= 8.
Proof.
  intros x w.
  assert (Hres : length (calls (run h (resolve_refish x) w)) <= 5 /\
                 length (filter is_revparse
                           (calls (run h (resolve_refish x) w))) <= 1).
  { destruct (resolve_refish_cases x w)
      as [Hrun | [(ref & w1 & o & w2 & _ & _ & Hrun) |
                  (w' & pre & _ & Hpre & Hrun)]];
      rewrite Hrun; cbn [calls]; [simpl; lia | simpl; lia |].
    destruct (quiet_prefix_frees _ pre Hpre) as (_ & _ & Hlen & Hq).
    rewrite filter_app, Hq, length_app.
    destruct (revparse_cases (STRING_ELT0 x) w')
      as [(n & v1 & _ & Hrev) |
          [(f & v1 & _ & _ & Hrev) |
           [(f & v1 & p & v2 & _ & _ & _ & Hrev) |
            (f & v1 & n & v2 & _ & _ & _ & Hrev)]]];
      rewrite Hrev; simpl; lia. }
  destruct Hres as [H5 H1]. split; [exact H5 |]. split; [exact H1 |].
  destruct (result (run h (resolve_refish x) w)) as [revision | e] eqn:Hrev.
  - destruct (h _ (git_commit_lookup (git_object_id revision))
                (final (run h (resolve_refish x) w))) as [[c | n] w1] eqn:Hc.
    + rewrite (ref_to_commit_lookup_succeeds x w revision c w1 Hrev Hc).
      cbn [calls]. rewrite length_app. simpl. lia.
    + destruct (h _ giterr_last w1) as [info w2] eqn:Hi.
      destruct (h _ (raise_libgit2_error (Z.neg n)
                       match info with
                       | Some i => message i
                       | None => "Unknown error message"
                       end "git_commit_lookup" (option_map klass info)) w2)
        as [r w3] eqn:Hr.
      destruct (ref_to_commit_lookup_fails x w revision n w1 info w2 r w3
                  Hrev Hc Hi Hr) as (e & Hrun & _).
      rewrite Hrun. cbn [calls]. rewrite length_app. simpl. lia.
  - unfold ref_to_commit. rewrite run_bind, Hrev. cbn [calls]. lia.
Qed.

End Releases.

(** ** Resolution against a repository snapshot *)

Section Snapshots.

Variable W : Type.
Variable h : handler W.

(** A program restricted to calls that leave a part of the state unchanged and
    answer from that part alone has the same result from any two states that
    agree on it, and leaves it unchanged. *)
Lemma run_only_calls : forall (S : Type) (view : W -> S) allowed,
  (forall X (c : call X) w, allowed X c = true -> view (snd (h _ c w)) = view w) ->
  (forall X (c : call X) w1 w2,
      allowed X c = true -> view w1 = view w2 ->
      fst (h _ c w1) = fst (h _ c w2)) ->
  forall A (p : prog A), only_calls allowed p ->
  forall w1 w2, view w1 = view w2 ->
    result (run h p w1) = result (run h p w2) /\
    view (final (run h p w1)) = view w1 /\
    view (final (run h p w2)) = view w2.
Proof.
  intros S view allowed Hkeep Hdet A p Hp.
  induction Hp as [a | e | X c k Hc _ IH]; intros w1 w2 Hw; simpl; auto.
  pose proof (Hdet X c w1 w2 Hc Hw) as Hx.
  pose proof (Hkeep X c w1 Hc) as H1. pose proof (Hkeep X c w2 Hc) as H2.
  destruct (h X c w1) as [x1 v1]; destruct (h X c w2) as [x2 v2].
  simpl in *. subst x2.
  destruct (IH x1 v1 v2) as (Hr & Hv1 & Hv2); [congruence |].
  cbn [after result final]. repeat split; congruence.
Qed.


End Snapshots.

(** ** The list builders *)

Section Builders.

Import RObjects.

Lemma set_nth_app : forall (A : Type) (done : list A) (b v : A) (rest : list A),
  set_nth (length done) v (done ++ b :: rest) = (done ++ v :: rest)%list.
Proof.
  intros A done b v rest.
  induction done as [| a done IH]; simpl; [reflexivity | now rewrite IH].
Qed.

Lemma ltb_length_app : forall (A : Type) (done : list A) (b : A) (rest : list A),
  (length done <? length (done ++ b :: rest))%nat = true.
Proof.
  intros A done b rest. apply Nat.ltb_lt. rewrite length_app. simpl. lia.
Qed.

Lemma make_strvec_loop_fills : forall strs done blanks rest attrib,
  length blanks = length strs ->
  make_strvec_loop (length strs) (length done) (map va_str strs ++ rest)
    (StrVector (done ++ blanks) attrib) =
  Some (StrVector (done ++ map safe_char strs) attrib).
Proof.
  induction strs as [| s strs IH]; intros done blanks rest attrib Hlen.
  - destruct blanks; [reflexivity | discriminate].
  - destruct blanks as [| b blanks]; [discriminate |].
    simpl. rewrite ltb_length_app, set_nth_app.
    replace (S (length done)) with (length (done ++ [safe_char s]))
      by (rewrite length_app; simpl; lia).
    replace (done ++ safe_char s :: blanks)%list
      with ((done ++ [safe_char s]) ++ blanks)%list
      by (rewrite <- app_assoc; reflexivity).
    rewrite IH by (simpl in Hlen; lia).
    rewrite <- app_assoc. reflexivity.
Qed.

Lemma unprotect_after : forall n top,
  UNPROTECT n (n + top) = Some (tt, top).
Proof.
  intros n top. unfold UNPROTECT.
  replace (n <=? n + top)%nat with true by (symmetry; apply Nat.leb_le; lia).
  replace (n + top - n) with top by lia. reflexivity.
Qed.

(** X10.  Called with [n] and at least [n] C strings, [make_strvec] yields
    the character vector of the first [n] of them in order, in UTF-8 and
    without attributes, with [NA] at every [NULL]; the protection stack is
    as before. *)
Theorem make_strvec_builds : forall strs rest top,
  make_strvec (length strs) (map va_str strs ++ rest) top =
  Some (StrVector (map safe_char strs) [], top).
Proof.
  intros strs rest top. unfold make_strvec, and_then, PROTECT, lift, ret.
  pose proof (make_strvec_loop_fills strs []
                (repeat R_BlankString (length strs)) rest []
                (repeat_length _ _)) as Hloop.
  simpl in *. rewrite Hloop.
  change (S top) with (1 + top). rewrite unprotect_after. reflexivity.
Qed.

Lemma build_list_loop_fills : forall pairs dn dv blanks nils rest an av,
  length dn = length dv ->
  length blanks = length pairs ->
  length nils = length pairs ->
  build_list_loop (length pairs) (length dn) (va_pairs pairs ++ rest)
    (StrVector (dn ++ blanks) an) (ListVector (dv ++ nils) av) =
  Some (StrVector (dn ++ map (fun p => safe_char (fst p)) pairs) an,
        ListVector (dv ++ map snd pairs) av).
Proof.
  induction pairs as [| [name val] pairs IH];
    intros dn dv blanks nils rest an av Hd Hb Hn.
  - destruct blanks, nils; try discriminate. reflexivity.
  - destruct blanks as [| b blanks]; [discriminate |].
    destruct nils as [| z nils]; [discriminate |].
    simpl. rewrite ltb_length_app, set_nth_app.
    rewrite Hd, ltb_length_app, set_nth_app.
    replace (S (length dv)) with (length (dn ++ [safe_char name]))
      by (rewrite length_app; simpl; lia).
    replace (dn ++ safe_char name :: blanks)%list
      with ((dn ++ [safe_char name]) ++ blanks)%list
      by (rewrite <- app_assoc; reflexivity).
    replace (dv ++ val :: nils)%list with ((dv ++ [val]) ++ nils)%list
      by (rewrite <- app_assoc; reflexivity).
    rewrite IH by (rewrite ?length_app; simpl in *; lia).
    rewrite <- !app_assoc. reflexivity.
Qed.

(** X11.  Called with [n] and at least [n] pairs of a C string and a value,
    [build_list_internal] yields the list of the first [n] values in order,
    whose only attribute is the names, one per value, with [NA] for a [NULL]
    name; the protection stack is as before. *)
Theorem build_list_internal_builds : forall pairs rest top,
  build_list_internal (length pairs) (va_pairs pairs ++ rest) top =
  Some (named_list pairs, top).
Proof.
  intros pairs rest top.
  unfold build_list_internal, and_then, PROTECT, lift, ret.
  pose proof (build_list_loop_fills pairs [] []
                (repeat R_BlankString (length pairs))
                (repeat R_NilValue (length pairs)) rest [] []
                eq_refl (repeat_length _ _) (repeat_length _ _)) as Hloop.
  simpl in *. rewrite Hloop. cbn [fst snd Rf_setAttrib].
  change (S (S top)) with (2 + top). rewrite unprotect_after. reflexivity.
Qed.

(** A list built from [pairs] and then unprotected by their number. *)
Lemma wrapper_run : forall pairs top,
  and_then (build_list_internal (length pairs) (va_pairs pairs))
           (fun out => and_then (UNPROTECT (length pairs)) (fun _ => ret out))
           top =
  if (length pairs <=? top)%nat
  then Some (named_list pairs, top - length pairs)
  else None.
Proof.
  intros pairs top. unfold and_then.
  pose proof (build_list_internal_builds pairs [] top) as H.
  rewrite app_nil_r in H. rewrite H.
  unfold UNPROTECT, ret. destruct (length pairs <=? top)%nat; reflexivity.
Qed.

(** X12.  Each wrapper [build_list1] to [build_list8] yields the list of its
    values under their names and takes as many pointers off the protection
    stack as it has pairs, the ones its caller protected; with fewer
    protected pointers than that it ends in R's unprotect error. *)
Theorem build_list_wrappers_unprotect :
  (forall xna1 xnb1 top,
      build_list1 xna1 xnb1 top =
      if (1 <=? top)%nat
      then Some (named_list [(xna1, xnb1)], top - 1)
      else None) /\
  (forall xna1 xnb1 xna2 xnb2 top,
      build_list2 xna1 xnb1 xna2 xnb2 top =
      if (2 <=? top)%nat
      then Some (named_list [(xna1, xnb1); (xna2, xnb2)], top - 2)
      else None) /\
  (forall xna1 xnb1 xna2 xnb2 xna3 xnb3 top,
      build_list3 xna1 xnb1 xna2 xnb2 xna3 xnb3 top =
      if (3 <=? top)%nat
      then Some (named_list [(xna1, xnb1); (xna2, xnb2); (xna3, xnb3)], top - 3)
      else None) /\
  (forall xna1 xnb1 xna2 xnb2 xna3 xnb3 xna4 xnb4 top,
      build_list4 xna1 xnb1 xna2 xnb2 xna3 xnb3 xna4 xnb4 top =
      if (4 <=? top)%nat
      then Some (named_list [(xna1, xnb1); (xna2, xnb2); (xna3, xnb3);
                             (xna4, xnb4)], top - 4)
      else None) /\
  (forall xna1 xnb1 xna2 xnb2 xna3 xnb3 xna4 xnb4 xna5 xnb5 top,
      build_list5 xna1 xnb1 xna2 xnb2 xna3 xnb3 xna4 xnb4 xna5 xnb5 top =
      if (5 <=? top)%nat
      then Some (named_list [(xna1, xnb1); (xna2, xnb2); (xna3, xnb3);
                             (xna4, xnb4); (xna5, xnb5)], top - 5)
      else None) /\
  (forall xna1 xnb1 xna2 xnb2 xna3 xnb3 xna4 xnb4 xna5 xnb5 xna6 xnb6 top,
      build_list6 xna1 xnb1 xna2 xnb2 xna3 xnb3 xna4 xnb4 xna5 xnb5 xna6 xnb6 top =
      if (6 <=? top)%nat
      then Some (named_list [(xna1, xnb1); (xna2, xnb2); (xna3, xnb3);
                             (xna4, xnb4); (xna5, xnb5);
                             (xna6, xnb6)], top - 6)
      else None) /\
  (forall xna1 xnb1 xna2 xnb2 xna3 xnb3 xna4 xnb4 xna5 xnb5 xna6 xnb6 xna7 xnb7 top,
      build_list7 xna1 xnb1 xna2 xnb2 xna3 xnb3 xna4 xnb4 xna5 xnb5 xna6 xnb6 xna7 xnb7 top =
      if (7 <=? top)%nat
      then Some (named_list [(xna1, xnb1); (xna2, xnb2); (xna3, xnb3);
                             (xna4, xnb4); (xna5, xnb5); (xna6, xnb6);
                             (xna7, xnb7)], top - 7)
      else None) /\
  (forall xna1 xnb1 xna2 xnb2 xna3 xnb3 xna4 xnb4 xna5 xnb5 xna6 xnb6 xna7 xnb7 xna8 xnb8 top,
      build_list8 xna1 xnb1 xna2 xnb2 xna3 xnb3 xna4 xnb4 xna5 xnb5 xna6 xnb6 xna7 xnb7 xna8 xnb8 top =
      if (8 <=? top)%nat
      then Some (named_list [(xna1, xnb1); (xna2, xnb2); (xna3, xnb3);
                             (xna4, xnb4); (xna5, xnb5); (xna6, xnb6);
                             (xna7, xnb7); (xna8, xnb8)], top - 8)
      else None).
Proof.
  repeat split; intros;
    match goal with
    | |- _ = (if _ then Some (named_list ?pairs, _) else None) =>
        exact (wrapper_run pairs top)
    end.
Qed.

Lemma symbol_eqb_eq : forall a b, symbol_eqb a b = true <-> a = b.
Proof.
  intros a b; split.
  - destruct a, b; simpl; intros H; try reflexivity; discriminate H.
  - intros ->. destruct b; reflexivity.
Qed.

Lemma getAttrib_install_same : forall attrib name val,
  Rf_getAttrib_list (installAttrib attrib name val) name = val.
Proof.
  intros attrib name val.
  induction attrib as [| [tag old] attrib IH]; simpl.
  - destruct name; reflexivity.
  - destruct (symbol_eqb tag name) eqn:E; simpl; rewrite E; auto.
Qed.

Lemma getAttrib_install_other : forall attrib name val other,
  other <> name ->
  Rf_getAttrib_list (installAttrib attrib name val) other =
  Rf_getAttrib_list attrib other.
Proof.
  intros attrib name val other Hne.
  assert (Hno : symbol_eqb name other = false).
  { destruct (symbol_eqb name other) eqn:E; [| reflexivity].
    apply symbol_eqb_eq in E. congruence. }
  induction attrib as [| [tag old] attrib IH]; simpl.
  - rewrite Hno. reflexivity.
  - destruct (symbol_eqb tag name) eqn:E; simpl.
    + apply symbol_eqb_eq in E. subst tag. rewrite Hno. reflexivity.
    + destruct (symbol_eqb tag other); auto.
Qed.

Lemma install_twice : forall attrib name val,
  installAttrib (installAttrib attrib name val) name val =
  installAttrib attrib name val.
Proof.
  intros attrib name val.
  induction attrib as [| [tag old] attrib IH]; simpl.
  - destruct name; reflexivity.
  - destruct (symbol_eqb tag name) eqn:E; simpl; rewrite E;
      [reflexivity | now rewrite IH].
Qed.

Lemma install_absorbed : forall attrib n1 v1 n2 v2,
  n1 <> n2 ->
  installAttrib (installAttrib (installAttrib attrib n1 v1) n2 v2) n1 v1 =
  installAttrib (installAttrib attrib n1 v1) n2 v2.
Proof.
  intros attrib n1 v1 n2 v2 Hne.
  assert (H12 : symbol_eqb n1 n2 = false).
  { destruct (symbol_eqb n1 n2) eqn:E; [| reflexivity].
    apply symbol_eqb_eq in E. congruence. }
  assert (H11 : symbol_eqb n1 n1 = true) by now apply symbol_eqb_eq.
  induction attrib as [| [tag old] attrib IH]; simpl.
  - rewrite H12. simpl. rewrite H11. reflexivity.
  - destruct (symbol_eqb tag n1) eqn:E1; simpl.
    + apply symbol_eqb_eq in E1. subst tag. rewrite H12. simpl.
      rewrite H11. reflexivity.
    + destruct (symbol_eqb tag n2) eqn:E2; simpl; rewrite E1.
      * now rewrite install_twice.
      * now rewrite IH.
Qed.

Lemma rownames_loop_fills : forall n done zeros attrib,
  length zeros = n ->
  rownames_loop n (length done) (IntVector (done ++ zeros) attrib) =
  Some (IntVector (done ++ map Z.of_nat (seq (S (length done)) n)) attrib).
Proof.
  induction n as [| n IH]; intros done zeros attrib Hlen.
  - destruct zeros; [reflexivity | discriminate].
  - destruct zeros as [| z zeros]; [discriminate |].
    cbn [rownames_loop SET_INTEGER_ELT].
    rewrite ltb_length_app, set_nth_app.
    replace (Z.of_nat (length done) + 1)%Z with (Z.of_nat (S (length done)))
      by lia.
    replace (S (length done))
      with (length (done ++ [Z.of_nat (S (length done))])) at 1
      by (rewrite length_app; simpl; lia).
    replace (done ++ Z.of_nat (S (length done)) :: zeros)%list
      with ((done ++ [Z.of_nat (S (length done))]) ++ zeros)%list
      by (rewrite <- app_assoc; reflexivity).
    rewrite IH by (simpl in Hlen; lia).
    rewrite <- app_assoc, length_app. simpl.
    replace (length done + 1) with (S (length done)) by lia. reflexivity.
Qed.

(** The whole of [list_to_tibble] in terms of its two attribute updates. *)
Lemma list_to_tibble_run : forall df top,
  list_to_tibble df top =
  match (if (Rf_length df =? 0)%nat then Some 0
         else option_map Rf_length (VECTOR_ELT df 0)) with
  | Some nrows =>
      match Rf_setAttrib df R_RowNamesSymbol (row_names nrows) with
      | Some df1 =>
          match Rf_setAttrib df1 R_ClassSymbol tibble_class with
          | Some df2 => Some (df2, top)
          | None => None
          end
      | None => None
      end
  | None => None
  end.
Proof.
  intros df top. unfold list_to_tibble, and_then, PROTECT, lift.
  destruct (if (Rf_length df =? 0)%nat then Some 0
            else option_map Rf_length (VECTOR_ELT df 0)) as [nrows |];
    [| reflexivity].
  pose proof (rownames_loop_fills nrows [] (repeat 0%Z nrows) []
                (repeat_length _ _)) as Hloop.
  simpl in Hloop. cbn [Rf_allocVector]. rewrite Hloop.
  fold (row_names nrows).
  destruct (Rf_setAttrib df R_RowNamesSymbol (row_names nrows)) as [df1 |];
    [| reflexivity].
  pose proof (make_strvec_builds [Some "tbl_df"; Some "tbl"; Some "data.frame"]
                [] (S (S top))) as Hclass.
  simpl in Hclass. rewrite Hclass. fold tibble_class.
  destruct (Rf_setAttrib df1 R_ClassSymbol tibble_class) as [df2 |];
    [| reflexivity].
  change (S (S top)) with (2 + top). rewrite unprotect_after. reflexivity.
Qed.

(** X13.  Given a list, [list_to_tibble] returns it with the columns as they
    were, with row names 1 to the length of the first column (none for a list
    without columns), with the class [tbl_df], [tbl], [data.frame], and with
    its names untouched; the protection stack is as before.  The other
    columns are not looked at. *)
Theorem list_to_tibble_data_frame : forall cols attrib top,
  exists df,
    list_to_tibble (ListVector cols attrib) top = Some (df, top) /\
    (forall i, VECTOR_ELT df i = nth_error cols i) /\
    Rf_getAttrib df R_RowNamesSymbol =
      row_names match cols with [] => 0 | c :: _ => Rf_length c end /\
    Rf_getAttrib df R_ClassSymbol = tibble_class /\
    Rf_getAttrib df R_NamesSymbol =
      Rf_getAttrib (ListVector cols attrib) R_NamesSymbol.
Proof.
  intros cols attrib top.
  set (nrows := match cols with [] => 0 | c :: _ => Rf_length c end).
  exists (ListVector cols
            (installAttrib (installAttrib attrib R_RowNamesSymbol
                              (row_names nrows))
               R_ClassSymbol tibble_class)).
  split.
  - rewrite list_to_tibble_run.
    replace (if (Rf_length (ListVector cols attrib) =? 0)%nat then Some 0
             else option_map Rf_length (VECTOR_ELT (ListVector cols attrib) 0))
      with (Some nrows) by (destruct cols; reflexivity).
    reflexivity.
  - unfold Rf_getAttrib. cbn [ATTRIB VECTOR_ELT].
    split; [reflexivity |]. split; [| split].
    + rewrite getAttrib_install_other by discriminate.
      apply getAttrib_install_same.
    + apply getAttrib_install_same.
    + rewrite !getAttrib_install_other by discriminate. reflexivity.
Qed.

(** X14.  [list_to_tibble] is idempotent: applied to a value it has
    returned, it returns that value again. *)
Theorem list_to_tibble_idempotent : forall df top df' top',
  list_to_tibble df top = Some (df', top') ->
  list_to_tibble df' top' = Some (df', top').
Proof.
  intros df top df' top' H. rewrite list_to_tibble_run in H.
  assert (Hshape :
            forall a, installAttrib
                        (installAttrib
                           (installAttrib
                              (installAttrib a R_RowNamesSymbol
                                 (row_names 0)) R_ClassSymbol tibble_class)
                           R_RowNamesSymbol (row_names 0))
                        R_ClassSymbol tibble_class =
                      installAttrib
                        (installAttrib a R_RowNamesSymbol (row_names 0))
                        R_ClassSymbol tibble_class).
  { intros a. rewrite !install_absorbed by discriminate. reflexivity. }
  destruct df as [| v a | v a | cols a].
  - discriminate.
  - destruct v as [| z v]; [| discriminate].
    cbn in H. injection H as <- <-. rewrite list_to_tibble_run. cbn.
    rewrite (Hshape a). reflexivity.
  - destruct v as [| z v]; [| discriminate].
    cbn in H. injection H as <- <-. rewrite list_to_tibble_run. cbn.
    rewrite (Hshape a). reflexivity.
  - set (nrows := match cols with [] => 0 | c :: _ => Rf_length c end).
    replace (if (Rf_length (ListVector cols a) =? 0)%nat then Some 0
             else option_map Rf_length (VECTOR_ELT (ListVector cols a) 0))
      with (Some nrows) in H by (destruct cols; reflexivity).
    cbn [Rf_setAttrib row_names tibble_class SET_ATTRIB ATTRIB] in H.
    injection H as <- <-. rewrite list_to_tibble_run.
    match goal with
    | |- context [ListVector cols ?attrs] =>
        replace (if (Rf_length (ListVector cols attrs) =? 0)%nat then Some 0
                 else option_map Rf_length
                        (VECTOR_ELT (ListVector cols attrs) 0))
          with (Some nrows) by (destruct cols; reflexivity)
    end.
    cbn [Rf_setAttrib row_names tibble_class SET_ATTRIB ATTRIB].
    rewrite !install_absorbed by discriminate. reflexivity.
Qed.

(** X15.  A list of two columns built by [build_list2] and handed to
    [list_to_tibble] is a data frame whose names are the two given names,
    whose row names run from 1 to the length of the first column and whose
    class is that of a tibble; of the protection stack only the two pointers
    that the caller protected are gone. *)
Theorem tibble_of_build_list2 : forall xna1 xnb1 xna2 xnb2 top,
  and_then (build_list2 xna1 xnb1 xna2 xnb2) list_to_tibble (2 + top) =
  Some (ListVector [xnb1; xnb2]
          [(R_NamesSymbol, StrVector [safe_char xna1; safe_char xna2] []);
           (R_RowNamesSymbol, row_names (Rf_length xnb1));
           (R_ClassSymbol, tibble_class)],
        top).
Proof.
  intros xna1 xnb1 xna2 xnb2 top. unfold and_then at 1.
  change (build_list2 xna1 xnb1 xna2 xnb2 (2 + top))
    with (and_then
            (build_list_internal (length [(xna1, xnb1); (xna2, xnb2)])
               (va_pairs [(xna1, xnb1); (xna2, xnb2)]))
            (fun out => and_then (UNPROTECT (length [(xna1, xnb1); (xna2, xnb2)]))
                                 (fun _ => ret out))
            (2 + top)).
  rewrite wrapper_run. cbn [length Nat.leb Nat.add Nat.sub named_list map fst snd].
  rewrite Nat.sub_0_r, list_to_tibble_run. reflexivity.
Qed.

End Builders.

(** ** The further properties at work *)

Lemma bail_if_returns_on_zero_only_witness :
  run libgit2 (bail_if 0 "git_commit_lookup") (fresh sample) =
    {| result := Returns tt; final := fresh sample; calls := [] |} /\
  (exists e,
      result (run libgit2 (bail_if (-3) "git_commit_lookup")
                (failed sample NotFound)) = Fails e).
Proof.
  destruct (bail_if_returns_on_zero_only world libgit2 0 "git_commit_lookup"
              (fresh sample)) as [Hzero _].
  destruct (bail_if_returns_on_zero_only world libgit2 (-3)
              "git_commit_lookup" (failed sample NotFound)) as [_ Hother].
  split; [exact (Hzero eq_refl) |].
  destruct (Hother ltac:(discriminate)) as [He _]. exact He.
Defined.

Lemma bail_if_condition_witness :
  result (run libgit2 (bail_if (-3) "git_remote_lookup")
            (failed sample NotFound)) =
    Fails (gert_error (-3) "no reference or object found" "git_remote_lookup"
             (Some 4%Z)) /\
  result (run libgit2 (bail_if (-1) "git_remote_lookup") (fresh sample)) =
    Fails (gert_error (-1) "Unknown error message" "git_remote_lookup" None).
Proof.
  split.
  - apply (bail_if_condition world libgit2 (-3) "git_remote_lookup"
             (failed sample NotFound) (Some (describe NotFound))
             (failed sample NotFound) (failed sample NotFound));
      [discriminate | reflexivity | reflexivity].
  - apply (bail_if_condition world libgit2 (-1) "git_remote_lookup"
             (fresh sample) None (fresh sample) (fresh sample));
      [discriminate | reflexivity | reflexivity].
Defined.

Lemma bail_if_null_returns_on_pointer_only_witness :
  run libgit2 (bail_if_null (Some c_main) "git_commit_lookup") (fresh sample) =
    {| result := Returns tt; final := fresh sample; calls := [] |} /\
  result (run libgit2 (bail_if_null (@None git_commit) "git_commit_lookup")
            (fresh sample)) =
    Fails (gert_error (-1) "Unknown error message" "git_commit_lookup" None).
Proof.
  destruct (bail_if_null_returns_on_pointer_only world libgit2 git_commit
              (Some c_main) "git_commit_lookup" (fresh sample)) as [Hptr _].
  destruct (bail_if_null_returns_on_pointer_only world libgit2 git_commit
              None "git_commit_lookup" (fresh sample)) as [_ Hnull].
  split; [apply Hptr; discriminate |].
  destruct (Hnull eq_refl) as [_ Hcond].
  exact (Hcond None (fresh sample) (fresh sample) eq_refl eq_refl).
Defined.

(** The branch [main] resolves, and the object database then fails to
    produce its commit. *)
Lemma ref_to_commit_lookup_error_witness :
  result (run unreadable_commits (resolve_refish (STRSXP ["main"]))
            (fresh sample)) = Returns (ObjCommit c_main) /\
  result (run unreadable_commits (ref_to_commit (STRSXP ["main"]))
            (fresh sample)) =
    Fails (gert_error (-3) "no reference or object found" "git_commit_lookup"
             (Some 4%Z)).
Proof.
  split; [reflexivity |].
  apply (ref_to_commit_lookup_error world unreadable_commits (STRSXP ["main"])
           (fresh sample) (ObjCommit c_main) 3%positive
           (failed sample NotFound) (Some (describe NotFound))
           (failed sample NotFound) (failed sample NotFound));
    reflexivity.
Defined.

Lemma ref_to_commit_revision_release_witness :
  freed_objects (calls (run libgit2 (ref_to_commit (STRSXP ["7a0002"]))
                          (fresh sample))) =
    [ObjTag "7a0002" "7a0001"; ObjCommit c_main] /\
  freed_objects (calls (run unreadable_commits
                          (ref_to_commit (STRSXP ["7a0002"]))
                          (fresh sample))) =
    [ObjTag "7a0002" "7a0001"].
Proof.
  destruct (ref_to_commit_revision_release world libgit2 (STRSXP ["7a0002"])
              (fresh sample) (ObjCommit c_main) eq_refl) as [Hok _].
  destruct (Hok c_main (failed sample NotFound) eq_refl) as [_ Hfreed].
  destruct (ref_to_commit_revision_release world unreadable_commits
              (STRSXP ["7a0002"]) (fresh sample) (ObjCommit c_main) eq_refl)
    as [_ Hfail].
  split.
  - rewrite Hfreed. reflexivity.
  - rewrite (Hfail 3%positive (failed sample NotFound) eq_refl). reflexivity.
Defined.

Lemma resolve_refish_found_object_witness :
  result (run libgit2 (resolve_refish (STRSXP ["abc"])) (fresh sample)) =
    Returns (ObjCommit c_main) /\
  freed_objects (calls (run libgit2 (resolve_refish (STRSXP ["abc"]))
                          (fresh sample))) = [] /\
  freed_objects (calls (run libgit2 (resolve_refish (STRSXP ["7a0003"]))
                          (fresh sample))) = [ObjTag "7a0003" "7e0001"].
Proof.
  assert (Habc : fast_path_fails libgit2 "abc" (fresh sample)
                   (failed sample NotFound))
    by (left; exists 3%positive; reflexivity).
  assert (Htag : fast_path_fails libgit2 "7a0003" (fresh sample)
                   (failed sample NotFound))
    by (left; exists 3%positive; reflexivity).
  destruct (resolve_refish_found_object world libgit2 "abc" [] (fresh sample)
              (failed sample NotFound) (ObjCommit c_main)
              (failed sample NotFound) Habc eq_refl) as [Hcommit _].
  destruct (resolve_refish_found_object world libgit2 "7a0003" []
              (fresh sample) (failed sample NotFound)
              (ObjTag "7a0003" "7e0001") (failed sample NotFound) Htag eq_refl)
    as [_ Hother].
  destruct (Hcommit eq_refl) as [Hres Hnone].
  split; [exact Hres |]. split; [exact Hnone |].
  apply Hother. discriminate.
Defined.

(** The id of a tag object: the tag is released, the commit it peels to is
    returned. *)
Lemma resolve_refish_returns_live_object_witness :
  result (run libgit2 (resolve_refish (STRSXP ["7a0002"])) (fresh sample)) =
    Returns (ObjCommit c_main) /\
  freed_objects (calls (run libgit2 (resolve_refish (STRSXP ["7a0002"]))
                          (fresh sample))) = [ObjTag "7a0002" "7a0001"] /\
  ~ In (ObjCommit c_main)
      (freed_objects (calls (run libgit2 (resolve_refish (STRSXP ["7a0002"]))
                               (fresh sample)))).
Proof.
  split; [reflexivity |]. split; [reflexivity |].
  destruct (resolve_refish_returns_live_object world libgit2) as [_ Hlive].
  apply (Hlive libgit2_peels_to_commit (STRSXP ["7a0002"]) (fresh sample)
           (ObjCommit c_main)).
  reflexivity.
Defined.

(** [main] is released after its peel; the tag [snapshot] points to a tree,
    does not peel, and is not released. *)
Lemma resolve_refish_reference_release_witness :
  freed_references (calls (run libgit2 (resolve_refish (STRSXP ["main"]))
                             (fresh sample))) =
    [mk_reference "refs/heads/main" (Direct "abc1234")] /\
  libgit2 _ (git_reference_dwim "snapshot") (fresh sample) =
    (GitOk (mk_reference "refs/tags/snapshot" (Direct "7a0003")), fresh sample) /\
  freed_references (calls (run libgit2 (resolve_refish (STRSXP ["snapshot"]))
                             (fresh sample))) = [].
Proof.
  destruct (resolve_refish_reference_release world libgit2 "main" []
              (fresh sample)
              (mk_reference "refs/heads/main" (Direct "abc1234"))
              (fresh sample) eq_refl) as [Hok _].
  destruct (resolve_refish_reference_release world libgit2 "snapshot" []
              (fresh sample)
              (mk_reference "refs/tags/snapshot" (Direct "7a0003"))
              (fresh sample) eq_refl) as [_ Hleft].
  split; [exact (Hok (ObjCommit c_main) (fresh sample) eq_refl) |].
  split; [reflexivity |].
  exact (Hleft 19%positive (failed sample PeelError) eq_refl).
Defined.

Lemma list_to_tibble_idempotent_witness :
  RObjects.list_to_tibble
    (RObjects.named_list
       [(Some "name", RObjects.StrVector
                        [RObjects.mkCharCE "main" RObjects.CE_UTF8;
                         RObjects.mkCharCE "dev" RObjects.CE_UTF8] []);
        (Some "local", RObjects.IntVector [1%Z; 0%Z] [])]) 0 =
    Some (RObjects.ListVector
            [RObjects.StrVector
               [RObjects.mkCharCE "main" RObjects.CE_UTF8;
                RObjects.mkCharCE "dev" RObjects.CE_UTF8] [];
             RObjects.IntVector [1%Z; 0%Z] []]
            [(RObjects.R_NamesSymbol,
              RObjects.StrVector
                [RObjects.mkCharCE "name" RObjects.CE_UTF8;
                 RObjects.mkCharCE "local" RObjects.CE_UTF8] []);
             (RObjects.R_RowNamesSymbol, RObjects.IntVector [1%Z; 2%Z] []);
             (RObjects.R_ClassSymbol, RObjects.tibble_class)], 0) /\
  RObjects.list_to_tibble
    (RObjects.ListVector
       [RObjects.StrVector
          [RObjects.mkCharCE "main" RObjects.CE_UTF8;
           RObjects.mkCharCE "dev" RObjects.CE_UTF8] [];
        RObjects.IntVector [1%Z; 0%Z] []]
       [(RObjects.R_NamesSymbol,
         RObjects.StrVector
           [RObjects.mkCharCE "name" RObjects.CE_UTF8;
            RObjects.mkCharCE "local" RObjects.CE_UTF8] []);
        (RObjects.R_RowNamesSymbol, RObjects.IntVector [1%Z; 2%Z] []);
        (RObjects.R_ClassSymbol, RObjects.tibble_class)]) 0 =
    Some (RObjects.ListVector
            [RObjects.StrVector
               [RObjects.mkCharCE "main" RObjects.CE_UTF8;
                RObjects.mkCharCE "dev" RObjects.CE_UTF8] [];
             RObjects.IntVector [1%Z; 0%Z] []]
            [(RObjects.R_NamesSymbol,
              RObjects.StrVector
                [RObjects.mkCharCE "name" RObjects.CE_UTF8;
                 RObjects.mkCharCE "local" RObjects.CE_UTF8] []);
             (RObjects.R_RowNamesSymbol, RObjects.IntVector [1%Z; 2%Z] []);
             (RObjects.R_ClassSymbol, RObjects.tibble_class)], 0).
Proof.
  split; [reflexivity |].
  apply (list_to_tibble_idempotent
           (RObjects.named_list
              [(Some "name", RObjects.StrVector
                               [RObjects.mkCharCE "main" RObjects.CE_UTF8;
                                RObjects.mkCharCE "dev" RObjects.CE_UTF8] []);
               (Some "local", RObjects.IntVector [1%Z; 0%Z] [])]) 0).
  reflexivity.
Defined.

(** ** Resolution and the state outside the snapshot *)

Lemma silent_keeps_snapshot : forall X (c : call X) w,
  reads_repository c = true ->
  snapshot (snd (silent_lookup_failures X c w)) = snapshot w.
Proof.
  intros X c w _. destruct c; simpl; try reflexivity; apply answer_snapshot.
Qed.

Lemma silent_reads_snapshot : forall X (c : call X) w1 w2,
  reads_repository c = true -> snapshot w1 = snapshot w2 ->
  fst (silent_lookup_failures X c w1) = fst (silent_lookup_failures X c w2).
Proof.
  intros X c w1 w2 Hc Hw.
  destruct c; simpl in *; try discriminate; try reflexivity;
    rewrite Hw; apply answer_fst.
Qed.


